(** * pg_schema: the catalog walker and its two renderers

    A shallow embedding of [src/pg_schema.py]: the box-drawing text
    renderer ([print_schema_tree_ascii]), the streamed document writer
    ([JsonStream], [print_schema_tree_json]) and the default-expression
    function-name extractor ([extract_default_func_name]).

    Conventions.
    - A Python [str] is a list of Unicode code points ([pystr]).
    - A Python [int] is a [Z]; a Python [bool] is a [bool]; [None] is the
      absent case of an [option].
    - The text renderer's sink is the list of strings handed to [print],
      one per call; the document writer's sink is the list of strings
      handed to [out.write], one per call.
    - The catalog connection is a record of query results ([Conn]): the
      rows every cursor of the source yields, for a fixed snapshot. *)

From Stdlib Require Import List NArith ZArith Bool String Ascii Lia.
Import ListNotations.

Local Open Scope Z_scope.

(** ** Strings *)

Definition pystr := list N.

(** An ASCII literal of the source, as code points. *)
Definition py (x : string) : pystr :=
  map N_of_ascii (list_ascii_of_string x).

Definition pystr_eqb (a b : pystr) : bool :=
  if list_eq_dec N.eq_dec a b then true else false.

(** [sep.join(parts)] *)
Fixpoint join (sep : pystr) (parts : list pystr) : pystr :=
  match parts with
  | [] => []
  | [p] => p
  | p :: rest => p ++ sep ++ join sep rest
  end.

(** [str.isspace] on one code point, which is also the class [\s] of
    the [re] module on [str] patterns: the characters CPython's
    [Py_UNICODE_ISSPACE] accepts. *)
Definition isspace (c : N) : bool :=
  (((9 <=? c) && (c <=? 13)) || ((28 <=? c) && (c <=? 32))
   || (c =? 133) || (c =? 160) || (c =? 5760)
   || ((8192 <=? c) && (c <=? 8202))
   || (c =? 8232) || (c =? 8233) || (c =? 8239) || (c =? 8287)
   || (c =? 12288))%N.

(** [s.split()] with no argument: the maximal runs of non-whitespace
    characters, in order. [cur] holds the run being read, reversed. *)
Fixpoint split_from (cur : pystr) (s : pystr) : list pystr :=
  match s with
  | [] => match cur with [] => [] | _ => [rev cur] end
  | c :: s' =>
      if isspace c
      then match cur with
           | [] => split_from [] s'
           | _ => rev cur :: split_from [] s'
           end
      else split_from (c :: cur) s'
  end.

Definition split (s : pystr) : list pystr := split_from [] s.

(** [" ".join(x.split())], the one-line form of a definition text. *)
Definition oneline (x : pystr) : pystr := join (py " ") (split x).

(** Python truthiness of an optional string: [None] and [""] are false. *)
Definition truthy (o : option pystr) : bool :=
  match o with
  | Some (_ :: _) => true
  | _ => false
  end.

(** ** ASCII helpers *)

(** The four glyph strings of [_branch] and [_child_prefix]:
    U+2514 U+2500 space, U+251C U+2500 space, three spaces,
    U+2502 space space. *)
Definition GLYPH_LAST : pystr := [9492; 9472; 32]%N.
Definition GLYPH_MID : pystr := [9500; 9472; 32]%N.
Definition GLYPH_GAP : pystr := [32; 32; 32]%N.
Definition GLYPH_BAR : pystr := [9474; 32; 32]%N.

Definition _branch (prefix : pystr) (is_last : bool) : pystr :=
  prefix ++ (if is_last then GLYPH_LAST else GLYPH_MID).

Definition _child_prefix (prefix : pystr) (is_last : bool) : pystr :=
  prefix ++ (if is_last then GLYPH_GAP else GLYPH_BAR).

(** ** Extractors *)

Section Extractors.

(** The [re] module's word test [\w] on a code point above the ASCII
    range comes from the interpreter's Unicode database, which is not
    part of the program. *)
Variable unicode_alnum : N -> bool.

Definition ascii_lower (c : N) : bool := ((97 <=? c) && (c <=? 122))%N.
Definition ascii_upper (c : N) : bool := ((65 <=? c) && (c <=? 90))%N.
Definition ascii_digit (c : N) : bool := ((48 <=? c) && (c <=? 57))%N.

(** [[a-z_]] under [re.IGNORECASE] on a [str] pattern: the 52 ASCII
    letters, the underscore, and the four letters whose case folding
    lands in a-z (U+0130, U+0131, U+017F, U+212A). *)
Definition ident_start (c : N) : bool :=
  (ascii_lower c || ascii_upper c || (c =? 95)
   || (c =? 304) || (c =? 305) || (c =? 383) || (c =? 8490))%N.

(** [\w] *)
Definition is_word (c : N) : bool :=
  if (c <? 128)%N
  then (ascii_lower c || ascii_upper c || ascii_digit c || (c =? 95)%N)
  else unicode_alnum c.

(** [[\w$]] *)
Definition ident_rest (c : N) : bool := is_word c || (c =? 36)%N.

(** A greedy [p*] followed by the continuation [k]: the longest run
    first, giving characters back one at a time while [k] fails.
    [acc] is the text matched so far. *)
Fixpoint star {A : Type} (p : N -> bool) (acc : pystr) (s : pystr)
         (k : pystr -> pystr -> option A) : option A :=
  match s with
  | c :: s' =>
      if p c
      then match star p (acc ++ [c]) s' k with
           | Some r => Some r
           | None => k acc s
           end
      else k acc s
  | [] => k acc []
  end.

(** [[a-z_][\w$]*] followed by [k], which receives the matched text. *)
Definition ident {A : Type} (s : pystr)
           (k : pystr -> pystr -> option A) : option A :=
  match s with
  | c :: s' => if ident_start c then star ident_rest [c] s' k else None
  | [] => None
  end.

(** The tail of the pattern: the named group [func], an identifier,
    then [\s*] and an opening parenthesis. Returns the group's text. *)
Definition func_then_paren (s : pystr) : option pystr :=
  ident s (fun func s1 =>
    star isspace [] s1 (fun _ s2 =>
      match s2 with
      | 40%N :: _ => Some func
      | _ => None
      end)).

(** [FUNC_NAME_RE.match(s)], as the text of the group [func] of the
    first match in backtracking order: leading [\s*], then the
    optional qualifier (an identifier and a dot, tried first), then
    the tail above. *)
Definition FUNC_NAME_RE_match (s : pystr) : option pystr :=
  star isspace [] s (fun _ s1 =>
    match ident s1 (fun _ s2 =>
            match s2 with
            | 46%N :: s3 => func_then_paren s3
            | _ => None
            end) with
    | Some r => Some r
    | None => func_then_paren s1
    end).

Definition extract_default_func_name (default_expr : option pystr)
  : option pystr :=
  if negb (truthy default_expr) then None
  else match default_expr with
       | Some e => FUNC_NAME_RE_match e
       | None => None
       end.

End Extractors.

(** ** Catalog rows and the connection *)

Definition table_row : Type := pystr * pystr.
Definition column_row : Type := pystr * pystr * bool * option pystr.
Definition function_row : Type := pystr * pystr * pystr.
Definition index_row : Type := pystr * bool * bool * bool * pystr.
Definition fkey_row : Type := pystr * pystr * pystr.
Definition trigger_row : Type := pystr * pystr * option pystr.

(** The options of the command line that the walk reads. *)
Record Args := mkArgs {
  include_views : bool;
  include_matviews : bool;
  include_foreign : bool;
  include_funcs : bool;
  include_indexes : bool;
  include_fkeys : bool;
  include_triggers : bool
}.

(** What each query returns on the connection, in cursor order.
    [rows_tables schema kinds_list] answers the query [q_tables] builds
    around [kinds_list]; [rows_rel_oid schema table] is the result set
    of [Q_REL_OID], one oid per row. The same question gets the same
    answer throughout a walk. *)
Record Conn := mkConn {
  rows_tables : pystr -> pystr -> list table_row;
  rows_rel_oid : pystr -> pystr -> list Z;
  rows_columns : Z -> list column_row;
  rows_functions : pystr -> list function_row;
  rows_indexes : Z -> list index_row;
  rows_fkeys_out : Z -> list fkey_row;
  rows_fkeys_in : Z -> list fkey_row;
  rows_triggers : Z -> list trigger_row
}.

(** The [kinds_list] of [q_tables]. *)
Definition q_tables_kinds (include_views include_ft include_matviews : bool)
  : pystr :=
  let kinds := [py "'r'"; py "'p'"] in
  let kinds := if include_views then kinds ++ [py "'v'"] else kinds in
  let kinds := if include_matviews then kinds ++ [py "'m'"] else kinds in
  let kinds := if include_ft then kinds ++ [py "'f'"] else kinds in
  join (py ",") kinds.

Definition iter_tables (conn : Conn) (schema : pystr) (args : Args)
  : list table_row :=
  rows_tables conn schema
    (q_tables_kinds (include_views args) (include_foreign args)
                    (include_matviews args)).

Definition iter_functions (conn : Conn) (schema : pystr) : list function_row :=
  rows_functions conn schema.

(** [cur.fetchone()], then [r[0] if r else None]. *)
Definition get_rel_oid (conn : Conn) (schema table : pystr) : option Z :=
  match rows_rel_oid conn schema table with
  | r :: _ => Some r
  | [] => None
  end.

Definition fetch_columns (conn : Conn) (rel_oid : Z) := rows_columns conn rel_oid.
Definition fetch_indexes (conn : Conn) (rel_oid : Z) := rows_indexes conn rel_oid.
Definition fetch_fkeys_out (conn : Conn) (rel_oid : Z) := rows_fkeys_out conn rel_oid.
Definition fetch_fkeys_in (conn : Conn) (rel_oid : Z) := rows_fkeys_in conn rel_oid.
Definition fetch_triggers (conn : Conn) (rel_oid : Z) := rows_triggers conn rel_oid.

(** ** Python built-ins used by the loops *)

Definition len {A : Type} (l : list A) : Z := Z.of_nat (List.length l).

Fixpoint enumerate_from {A : Type} (i : Z) (l : list A) : list (Z * A) :=
  match l with
  | [] => []
  | x :: l' => (i, x) :: enumerate_from (i + 1) l'
  end.

Definition enumerate {A : Type} (l : list A) : list (Z * A) :=
  enumerate_from 0 l.

(** Truthiness of a list. *)
Definition nonempty {A : Type} (l : list A) : bool :=
  match l with [] => false | _ => true end.

(** [print(line, file=out)] *)
Definition print (line : pystr) (out : list pystr) : list pystr :=
  out ++ [line].

(** ** Printing: ASCII *)

(** [RELKIND_LABEL.get(relkind, "[rel]")] *)
Definition RELKIND_LABEL_get (relkind : pystr) : pystr :=
  if pystr_eqb relkind (py "r") then py "[table]"
  else if pystr_eqb relkind (py "p") then py "[part_table]"
  else if pystr_eqb relkind (py "v") then py "[view]"
  else if pystr_eqb relkind (py "m") then py "[matview]"
  else if pystr_eqb relkind (py "f") then py "[foreign]"
  else py "[rel]".

(** The payload of one entry of the list [enabled]; the constructor is
    the entry's group name. *)
Inductive gdata :=
| GIndexes (idxs : list index_row)
| GFkeys (fko fki : list fkey_row)
| GTriggers (trgs : list trigger_row).

Definition gname (g : gdata) : pystr :=
  match g with
  | GIndexes _ => py "indexes"
  | GFkeys _ _ => py "foreign_keys"
  | GTriggers _ => py "triggers"
  end.

(** The tags of one index row and the bracketed text made of them. *)
Definition index_tags (ispk isuniq is_invalid : bool) : list pystr :=
  let tags := [] in
  let tags := if ispk then tags ++ [py "PK"] else tags in
  let tags := if isuniq && negb ispk then tags ++ [py "UNIQ"] else tags in
  let tags := if is_invalid then tags ++ [py "INVALID"] else tags in
  tags.

Definition index_tag (tags : list pystr) : pystr :=
  if nonempty tags then py " [" ++ join (py "|") tags ++ py "]" else [].

Definition index_text (row : index_row) : pystr :=
  let '(idxname, ispk, isuniq, is_invalid, idxdef) := row in
  idxname ++ index_tag (index_tags ispk isuniq is_invalid)
          ++ py " :: " ++ oneline idxdef.

Definition fkey_out_text (row : fkey_row) : pystr :=
  let '(conname, defn, ref_table) := row in
  conname ++ py " -> " ++ ref_table ++ py " :: " ++ oneline defn.

Definition fkey_in_text (row : fkey_row) : pystr :=
  let '(conname, defn, src_table) := row in
  conname ++ py " <- " ++ src_table ++ py " :: " ++ oneline defn.

Definition trigger_text (row : trigger_row) : pystr :=
  let '(tgname, tgdef, func_name) := row in
  let fn := if truthy func_name
            then py " [func: " ++ match func_name with Some f => f | None => [] end
                 ++ py "]"
            else [] in
  tgname ++ fn ++ py " :: " ++ oneline tgdef.

(** A loop [for k, row in enumerate(rows)] that prints one leaf per row
    under [prefix], the last one with the closing glyph. *)
Definition print_leaves {A : Type} (text : A -> pystr) (prefix : pystr)
           (rows : list A) (out : list pystr) : list pystr :=
  fold_left
    (fun out (kr : Z * A) =>
       let '(k, row) := kr in
       let last := k =? len rows - 1 in
       print (_branch prefix last ++ text row) out)
    (enumerate rows) out.

Section Ascii.

Variable unicode_alnum : N -> bool.

(** The list [parts] of one column. *)
Definition column_parts (row : column_row) : list pystr :=
  let '(cname, dtype, notnull, default_expr) := row in
  let parts := [cname ++ py ": " ++ dtype] in
  let parts := if notnull then parts ++ [py "NOT NULL"] else parts in
  if truthy default_expr
  then
    let parts := parts ++ [py "DEFAULT "
                           ++ match default_expr with Some d => d | None => [] end] in
    let fn := extract_default_func_name unicode_alnum default_expr in
    if truthy fn
    then parts ++ [py "[func: " ++ match fn with Some f => f | None => [] end
                   ++ py "]"]
    else parts
  else parts.

Definition column_text (row : column_row) : pystr :=
  join (py " ") (column_parts row).

(** The body of [for g_idx, (gname, gdata) in enumerate(enabled)]
    below the group's own line. *)
Definition ascii_group_body (g_prefix : pystr) (g : gdata)
           (out : list pystr) : list pystr :=
  match g with
  | GIndexes gd => print_leaves index_text g_prefix gd out
  | GFkeys fko fki =>
      let out := print (_branch g_prefix (if nonempty fki then false else true)
                        ++ py "outgoing") out in
      let out_prefix := _child_prefix g_prefix (if nonempty fki then false else true) in
      let out := if nonempty fko
                 then print_leaves fkey_out_text out_prefix fko out
                 else print (_branch out_prefix true ++ py "(none)") out in
      if nonempty fki
      then
        let out := print (_branch g_prefix true ++ py "incoming") out in
        let in_prefix := _child_prefix g_prefix true in
        print_leaves fkey_in_text in_prefix fki out
      else
        let out := print (_branch g_prefix true ++ py "incoming") out in
        let in_prefix := _child_prefix g_prefix true in
        print (_branch in_prefix true ++ py "(none)") out
  | GTriggers trgs =>
      if nonempty trgs
      then print_leaves trigger_text g_prefix trgs out
      else print (_branch g_prefix true ++ py "(none)") out
  end.

(** The loop over [enabled]. *)
Definition ascii_groups (level1_prefix : pystr) (enabled : list gdata)
           (out : list pystr) : list pystr :=
  fold_left
    (fun out (ig : Z * gdata) =>
       let '(g_idx, g) := ig in
       let is_last_group := g_idx =? len enabled - 1 in
       let out := print (_branch level1_prefix is_last_group ++ gname g) out in
       let g_prefix := _child_prefix level1_prefix is_last_group in
       ascii_group_body g_prefix g out)
    (enumerate enabled) out.

Variable conn : Conn.
Variable schema : pystr.
Variable args : Args.

(** The list [enabled] of a relation. *)
Definition enabled_groups (rel_oid : Z) : list gdata :=
  let enabled := [] in
  let enabled := if include_indexes args
                 then enabled ++ [GIndexes (fetch_indexes conn rel_oid)]
                 else enabled in
  let enabled := if include_fkeys args
                 then enabled ++ [GFkeys (fetch_fkeys_out conn rel_oid)
                                         (fetch_fkeys_in conn rel_oid)]
                 else enabled in
  let enabled := if include_triggers args
                 then enabled ++ [GTriggers (fetch_triggers conn rel_oid)]
                 else enabled in
  enabled.

(** What the relation loop prints for a relation whose oid is known. *)
Definition ascii_relation_children (level1_prefix : pystr) (rel_oid : Z)
           (out : list pystr) : list pystr :=
  let cols := fetch_columns conn rel_oid in
  let more_groups := include_indexes args || include_fkeys args
                     || include_triggers args in
  let out := print (_branch level1_prefix (negb more_groups && negb (nonempty cols))
                    ++ py "columns") out in
  let col_prefix := _child_prefix level1_prefix
                      (negb more_groups && negb (nonempty cols)) in
  let out := print_leaves column_text col_prefix cols out in
  ascii_groups level1_prefix (enabled_groups rel_oid) out.

(** One turn of [for tname, relkind in iter_tables(...)]: the state is
    the sink and the counter [idx]. *)
Definition ascii_relation (idx_top top_children : Z)
           (st : list pystr * Z) (row : table_row) : list pystr * Z :=
  let '(out, idx) := st in
  let '(tname, relkind) := row in
  let is_last_table := idx_top + idx =? top_children - 1 in
  let label := RELKIND_LABEL_get relkind in
  let out := print (_branch [] is_last_table ++ tname ++ py " " ++ label) out in
  let level1_prefix := _child_prefix [] is_last_table in
  match get_rel_oid conn schema tname with
  | None =>
      let out := print (_branch level1_prefix true ++ py "(rel not found)") out in
      (out, idx + 1)
  | Some rel_oid =>
      (ascii_relation_children level1_prefix rel_oid out, idx + 1)
  end.

Definition function_text (row : function_row) : pystr :=
  let '(fname, fargs, rettype) := row in
  fname ++ py "(" ++ fargs ++ py ") -> " ++ rettype.

Definition print_schema_tree_ascii (out : list pystr) : list pystr :=
  let out := print schema out in
  let has_funcs := include_funcs args in
  let table_count := len (iter_tables conn schema args) in
  let top_children := table_count + (if has_funcs then 1 else 0) in
  let idx_top := 0 in
  let '(out, idx_top) :=
    if has_funcs
    then
      let is_last := if table_count =? 0
                     then idx_top =? top_children - 1 else false in
      let out := print (_branch [] is_last ++ py "functions") out in
      let func_prefix := _child_prefix [] is_last in
      let funcs := iter_functions conn schema in
      let out := print_leaves function_text func_prefix funcs out in
      (out, idx_top + 1)
    else (out, idx_top) in
  fst (fold_left (ascii_relation idx_top top_children)
                 (iter_tables conn schema args) (out, 0)).

End Ascii.

(** ** Printing: JSON (streamed) *)

(** The values handed to [json.dumps]: strings, booleans, [None], and
    flat dicts of those in insertion order. *)
Inductive jscalar :=
| JStr (s : pystr)
| JBool (b : bool)
| JNone.

Definition jdict : Type := list (pystr * jscalar).

Inductive jvalue :=
| JScalar (v : jscalar)
| JDict (d : jdict).

Definition hex_digit (n : N) : N :=
  (if n <? 10 then 48 + n else 87 + n)%N.

(** The replacement [json] makes for one character of a string when
    [ensure_ascii] is off: the quote, the backslash and the control
    characters below U+0020 are escaped, nothing else. *)
Definition escape_char (c : N) : pystr :=
  (if c =? 34 then [92; 34]
   else if c =? 92 then [92; 92]
   else if c =? 8 then [92; 98]
   else if c =? 12 then [92; 102]
   else if c =? 10 then [92; 110]
   else if c =? 13 then [92; 114]
   else if c =? 9 then [92; 116]
   else if c <? 32 then [92; 117; 48; 48; hex_digit (c / 16); hex_digit (c mod 16)]
   else [c])%N.

Definition dumps_str (s : pystr) : pystr :=
  [34%N] ++ flat_map escape_char s ++ [34%N].

Definition dumps_scalar (v : jscalar) : pystr :=
  match v with
  | JStr s => dumps_str s
  | JBool true => py "true"
  | JBool false => py "false"
  | JNone => py "null"
  end.

(** [json.dumps(v, ensure_ascii=False)], with the default separators. *)
Definition dumps (v : jvalue) : pystr :=
  match v with
  | JScalar x => dumps_scalar x
  | JDict d =>
      py "{" ++ join (py ", ")
                     (map (fun kv : pystr * jscalar =>
                             dumps_str (fst kv) ++ py ": " ++ dumps_scalar (snd kv)) d)
             ++ py "}"
  end.

(** The fields of a [JsonStream]. [out] is the list of strings written
    so far; the head of [first_stack] is the last element of the Python
    list, the flag of the innermost open container. *)
Record JsonStream := mkJS {
  out : list pystr;
  pretty : bool;
  indent : Z;
  level : Z;
  first_stack : list bool
}.

(** [JsonStream(out, pretty, indent)] *)
Definition JsonStream_init (o : list pystr) (p : bool) (i : Z) : JsonStream :=
  mkJS o p i 0 [].

(** A method of the stream: it changes the stream and returns a value,
    or raises ([None]); the one exception in reach is [IndexError] from
    [first_stack.pop()] on an empty list. *)
Definition JS (A : Type) : Type := JsonStream -> option (A * JsonStream).

Definition ret {A : Type} (a : A) : JS A := fun st => Some (a, st).

Definition bind {A B : Type} (c : JS A) (k : A -> JS B) : JS B :=
  fun st => match c st with
            | Some (a, st') => k a st'
            | None => None
            end.

Notation "c1 ;; c2" := (bind c1 (fun _ => c2))
                         (at level 61, right associativity).

Definition write (x : pystr) : JS unit :=
  fun st => Some (tt, mkJS (out st ++ [x]) (pretty st) (indent st) (level st)
                           (first_stack st)).

Definition add_level (d : Z) : JS unit :=
  fun st => Some (tt, mkJS (out st) (pretty st) (indent st) (level st + d)
                           (first_stack st)).

Definition push_first (b : bool) : JS unit :=
  fun st => Some (tt, mkJS (out st) (pretty st) (indent st) (level st)
                           (b :: first_stack st)).

Definition pop_first : JS unit :=
  fun st => match first_stack st with
            | [] => None
            | _ :: fs => Some (tt, mkJS (out st) (pretty st) (indent st) (level st) fs)
            end.

Definition _nl : JS unit :=
  fun st => if pretty st then write [10%N] st else ret tt st.

(** [" " * n] is empty for a negative [n]. *)
Definition _pad : JS unit :=
  fun st => if pretty st
            then write (repeat 32%N (Z.to_nat (level st * indent st))) st
            else ret tt st.

Definition begin_obj : JS unit :=
  write (py "{") ;; add_level 1 ;; push_first true.

Definition end_obj : JS unit :=
  add_level (-1) ;; _nl ;; _pad ;; write (py "}") ;; pop_first.

Definition begin_array : JS unit :=
  write (py "[") ;; add_level 1 ;; push_first true.

Definition end_array : JS unit :=
  add_level (-1) ;; _nl ;; _pad ;; write (py "]") ;; pop_first.

Definition _comma_if_needed : JS unit :=
  fun st => match first_stack st with
            | [] => ret tt st
            | true :: fs =>
                Some (tt, mkJS (out st) (pretty st) (indent st) (level st)
                               (false :: fs))
            | false :: _ => write (py ",") st
            end.

Definition key (k : pystr) : JS unit :=
  _comma_if_needed ;;
  _nl ;; _pad ;;
  write (dumps (JScalar (JStr k))) ;;
  (fun st => write (if negb (pretty st) then py ":" else py ": ") st).

Definition value (v : jvalue) : JS unit :=
  _comma_if_needed ;;
  _nl ;; _pad ;;
  write (dumps v).

Definition item (v : jvalue) : JS unit :=
  _comma_if_needed ;;
  _nl ;; _pad ;;
  write (dumps v).

(** A [for] loop over rows already fetched. *)
Fixpoint for_each {A : Type} (rows : list A) (body : A -> JS unit) : JS unit :=
  match rows with
  | [] => ret tt
  | x :: rows' => body x ;; for_each rows' body
  end.

Definition function_entry (row : function_row) : jvalue :=
  let '(fname, fargs, rettype) := row in
  JDict [(py "name", JStr fname); (py "args", JStr fargs);
         (py "return_type", JStr rettype)].

Definition index_entry (row : index_row) : jvalue :=
  let '(idxname, ispk, isuniq, is_invalid, idxdef) := row in
  JDict [(py "name", JStr idxname); (py "primary", JBool ispk);
         (py "unique", JBool isuniq); (py "invalid", JBool is_invalid);
         (py "definition", JStr (oneline idxdef))].

Definition fkey_out_entry (row : fkey_row) : jvalue :=
  let '(conname, defn, ref_table) := row in
  JDict [(py "name", JStr conname); (py "ref_table", JStr ref_table);
         (py "definition", JStr (oneline defn))].

Definition fkey_in_entry (row : fkey_row) : jvalue :=
  let '(conname, defn, src_table) := row in
  JDict [(py "name", JStr conname); (py "src_table", JStr src_table);
         (py "definition", JStr (oneline defn))].

Definition trigger_entry (row : trigger_row) : jvalue :=
  let '(tgname, tgdef, func_name) := row in
  JDict [(py "name", JStr tgname);
         (py "function", match func_name with Some f => JStr f | None => JNone end);
         (py "definition", JStr (oneline tgdef))].

Section Json.

Variable unicode_alnum : N -> bool.

(** The dict [entry] of one column. *)
Definition column_entry (row : column_row) : jvalue :=
  let '(cname, dtype, notnull, default_expr) := row in
  let entry := [(py "name", JStr cname); (py "type", JStr dtype);
                (py "not_null", JBool notnull)] in
  if truthy default_expr
  then
    let entry := entry ++ [(py "default",
                            JStr match default_expr with Some d => d | None => [] end)] in
    let fn := extract_default_func_name unicode_alnum default_expr in
    if truthy fn
    then JDict (entry ++ [(py "default_func",
                           JStr match fn with Some f => f | None => [] end)])
    else JDict entry
  else JDict entry.

Variable conn : Conn.
Variable schema : pystr.
Variable args : Args.

Definition json_columns (rel_oid : Z) : JS unit :=
  key (py "columns") ;; begin_array ;;
  for_each (fetch_columns conn rel_oid) (fun row => item (column_entry row)) ;;
  end_array.

Definition json_indexes (rel_oid : Z) : JS unit :=
  key (py "indexes") ;; begin_array ;;
  for_each (fetch_indexes conn rel_oid) (fun row => item (index_entry row)) ;;
  end_array.

Definition json_fkeys (rel_oid : Z) : JS unit :=
  key (py "foreign_keys") ;; begin_obj ;;
  key (py "outgoing") ;; begin_array ;;
  for_each (fetch_fkeys_out conn rel_oid) (fun row => item (fkey_out_entry row)) ;;
  end_array ;;
  key (py "incoming") ;; begin_array ;;
  for_each (fetch_fkeys_in conn rel_oid) (fun row => item (fkey_in_entry row)) ;;
  end_array ;;
  end_obj.

Definition json_triggers (rel_oid : Z) : JS unit :=
  key (py "triggers") ;; begin_array ;;
  for_each (fetch_triggers conn rel_oid) (fun row => item (trigger_entry row)) ;;
  end_array.

(** One turn of [for (tname, relkind) in iter_tables(...)]. *)
Definition json_relation (row : table_row) : JS unit :=
  let '(tname, relkind) := row in
  begin_obj ;;
  key (py "name") ;; value (JScalar (JStr tname)) ;;
  key (py "kind") ;; value (JScalar (JStr (RELKIND_LABEL_get relkind))) ;;
  match get_rel_oid conn schema tname with
  | None =>
      key (py "error") ;; value (JScalar (JStr (py "rel not found"))) ;;
      end_obj
  | Some rel_oid =>
      json_columns rel_oid ;;
      (if include_indexes args then json_indexes rel_oid else ret tt) ;;
      (if include_fkeys args then json_fkeys rel_oid else ret tt) ;;
      (if include_triggers args then json_triggers rel_oid else ret tt) ;;
      end_obj
  end.

Definition print_schema_tree_json : JS unit :=
  begin_obj ;;
  key (py "name") ;; value (JScalar (JStr schema)) ;;
  (if include_funcs args
   then key (py "functions") ;; begin_array ;;
        for_each (iter_functions conn schema) (fun row => item (function_entry row)) ;;
        end_array
   else ret tt) ;;
  key (py "relations") ;; begin_array ;;
  for_each (iter_tables conn schema args) json_relation ;;
  end_array ;;
  end_obj.

End Json.

(** Schema [app] with the single table [users], columns
    [id integer not null] and [email text], nothing else. *)
Definition conn_users : Conn :=
  mkConn (fun s _ => if pystr_eqb s (py "app") then [(py "users", py "r")] else [])
         (fun _ _ => [16384])
         (fun _ => [(py "id", py "integer", true, None);
                    (py "email", py "text", false, None)])
         (fun _ => []) (fun _ => []) (fun _ => []) (fun _ => []) (fun _ => []).

Definition args_none : Args := mkArgs false false false false false false false.


(** The document branch of [main], given the schema names that
    [iter_schemas] yields: the root object and its [schemas] array
    around one [print_schema_tree_json] per schema. *)
Definition main_json (unicode_alnum : N -> bool) (conn : Conn) (args : Args)
           (schemas : list pystr) (p : bool) : JS unit :=
  begin_obj ;;
  key (py "schemas") ;; begin_array ;;
  for_each schemas
           (fun schema => print_schema_tree_json unicode_alnum conn schema args) ;;
  end_array ;;
  end_obj ;;
  (if p then write [10%N] else ret tt).

(** The text a sink holds once its writes are put end to end. *)
Definition written (chunks : list pystr) : pystr := List.concat chunks.

(** How many times the separator was written. *)
Definition separators (chunks : list pystr) : nat :=
  List.length (filter (pystr_eqb (py ",")) chunks).

(** A literal with apostrophes standing for double quotes. *)
Definition dq (x : string) : pystr :=
  map (fun c => if (c =? 39)%N then 34%N else c) (py x).

(** ** Sample catalogs *)

(** Schema [app] with tables [a] and [b], neither of which resolves to
    an oid any more. *)
Definition conn_vanished : Conn :=
  mkConn (fun s _ => if pystr_eqb s (py "app")
                     then [(py "a", py "r"); (py "b", py "r")] else [])
         (fun _ _ => [])
         (fun _ => []) (fun _ => []) (fun _ => []) (fun _ => []) (fun _ => [])
         (fun _ => []).

(** Schema [app] with tables [a] (oid 1, one column) and [b] (oid 2, no
    column). *)
Definition conn_pair : Conn :=
  mkConn (fun s _ => if pystr_eqb s (py "app")
                     then [(py "a", py "r"); (py "b", py "r")] else [])
         (fun _ t => if pystr_eqb t (py "a") then [1] else [2])
         (fun oid => if oid =? 1 then [(py "id", py "integer", true, None)] else [])
         (fun _ => []) (fun _ => []) (fun _ => []) (fun _ => []) (fun _ => []).

Definition args_fkeys : Args := mkArgs false false false false false true false.

(** ** Closed forms used by the statements *)

(** The lines of a sibling group whose last member is told apart:
    [emit true] for the final element, [emit false] for the others. *)
Fixpoint lines_last {A : Type} (emit : bool -> A -> list pystr)
         (rows : list A) : list pystr :=
  match rows with
  | [] => []
  | [x] => emit true x
  | x :: rest => emit false x ++ lines_last emit rest
  end.

(** One leaf per row under [prefix]: the final row with the closing
    glyph, every other row with the middle glyph. *)
Definition leaf_lines {A : Type} (text : A -> pystr) (prefix : pystr)
           (rows : list A) : list pystr :=
  lines_last (fun last x => [_branch prefix last ++ text x]) rows.

(** Does [line] start with [prefix]? *)
Fixpoint starts_with (prefix line : pystr) : bool :=
  match prefix, line with
  | [], _ => true
  | c :: prefix', d :: line' => (c =? d)%N && starts_with prefix' line'
  | _ :: _, [] => false
  end.

(** Does [needle] occur somewhere in [text]? *)
Fixpoint occurs (needle text : pystr) : bool :=
  starts_with needle text
  || match text with
     | [] => false
     | _ :: text' => occurs needle text'
     end.

(** The lines that are members of the sibling group under [prefix] and
    carry the closing glyph; lines of deeper levels continue [prefix]
    with a continuation glyph and are not counted. *)
Definition count_last (prefix : pystr) (lines : list pystr) : nat :=
  List.length (filter (starts_with (prefix ++ GLYPH_LAST)) lines).

(** The members of the sibling group under [prefix], with either glyph. *)
Definition count_members (prefix : pystr) (lines : list pystr) : nat :=
  List.length (filter (fun l => starts_with (prefix ++ GLYPH_LAST) l
                                || starts_with (prefix ++ GLYPH_MID) l) lines).

(** The lines below a [foreign_keys] line. *)
Definition fkeys_lines (g_prefix : pystr) (fko fki : list fkey_row) : list pystr :=
  [_branch g_prefix (negb (nonempty fki)) ++ py "outgoing"]
  ++ (if nonempty fko
      then leaf_lines fkey_out_text (_child_prefix g_prefix (negb (nonempty fki))) fko
      else [_child_prefix g_prefix (negb (nonempty fki)) ++ GLYPH_LAST ++ py "(none)"])
  ++ [g_prefix ++ GLYPH_LAST ++ py "incoming"]
  ++ (if nonempty fki
      then leaf_lines fkey_in_text (g_prefix ++ GLYPH_GAP) fki
      else [g_prefix ++ GLYPH_GAP ++ GLYPH_LAST ++ py "(none)"]).

(** A group's own line and the lines below it. *)
Definition group_block (prefix : pystr) (last : bool) (g : gdata) : list pystr :=
  (_branch prefix last ++ gname g)
    :: ascii_group_body (_child_prefix prefix last) g [].

(** ** Whitespace *)





(** ** Identifiers *)

(** A name the pattern's groups can hold: a first character of
    [[a-z_]] and then characters of [[\w$]]. *)
Definition identifier (unicode_alnum : N -> bool) (fn : pystr) : bool :=
  match fn with
  | c :: rest => ident_start c && forallb (ident_rest unicode_alnum) rest
  | [] => false
  end.

(** ** Closed forms of the document writer's output *)

(** What the methods write, by the stream's mode [p], indent width [i],
    depth [l] and the flag [first] of the innermost container. *)
Definition nlpad (p : bool) (i l : Z) : list pystr :=
  if p then [[10%N]; repeat 32%N (Z.to_nat (l * i))] else [].

Definition sep (first : bool) : list pystr :=
  if first then [] else [py ","].

Definition colon (p : bool) : pystr :=
  if p then py ": " else py ":".

Definition key_chunks (p : bool) (i l : Z) (first : bool) (k : pystr) : list pystr :=
  sep first ++ nlpad p i l ++ [dumps_str k; colon p].

Definition value_chunks (p : bool) (i l : Z) (first : bool) (v : jvalue) : list pystr :=
  sep first ++ nlpad p i l ++ [dumps v].

Fixpoint items_chunks (p : bool) (i l : Z) (first : bool) (vs : list jvalue)
  : list pystr :=
  match vs with
  | [] => []
  | v :: vs' => value_chunks p i l first v ++ items_chunks p i l false vs'
  end.

Definition close_chunks (p : bool) (i l : Z) (bracket : pystr) : list pystr :=
  nlpad p i l ++ [bracket].

(** A keyed array: the key, the bracket, the items, the closing bracket. *)
Definition array_chunks (p : bool) (i l : Z) (first : bool) (k : pystr)
           (vs : list jvalue) : list pystr :=
  key_chunks p i l first k ++ [py "["]
  ++ items_chunks p i (l + 1) true vs
  ++ close_chunks p i l (py "]").

Definition fkeys_chunks (p : bool) (i l : Z) (first : bool)
           (fko fki : list fkey_row) : list pystr :=
  key_chunks p i l first (py "foreign_keys") ++ [py "{"]
  ++ array_chunks p i (l + 1) true (py "outgoing") (map fkey_out_entry fko)
  ++ array_chunks p i (l + 1) false (py "incoming") (map fkey_in_entry fki)
  ++ close_chunks p i l (py "}").

(** The opening of a relation object, up to its [kind] member. *)
Definition relation_head_chunks (p : bool) (i l : Z) (tname relkind : pystr)
  : list pystr :=
  [py "{"]
  ++ key_chunks p i (l + 1) true (py "name")
  ++ value_chunks p i (l + 1) false (JScalar (JStr tname))
  ++ key_chunks p i (l + 1) false (py "kind")
  ++ value_chunks p i (l + 1) false (JScalar (JStr (RELKIND_LABEL_get relkind))).

Section JsonClosedForms.

Variable unicode_alnum : N -> bool.
Variable conn : Conn.
Variable args : Args.

(** The members of a relation object after [kind], when the relation's
    oid is known. *)
Definition relation_groups_chunks (p : bool) (i l : Z) (rel_oid : Z)
  : list pystr :=
  array_chunks p i l false (py "columns")
               (map (column_entry unicode_alnum) (fetch_columns conn rel_oid))
  ++ (if include_indexes args
      then array_chunks p i l false (py "indexes")
                        (map index_entry (fetch_indexes conn rel_oid))
      else [])
  ++ (if include_fkeys args
      then fkeys_chunks p i l false (fetch_fkeys_out conn rel_oid)
                        (fetch_fkeys_in conn rel_oid)
      else [])
  ++ (if include_triggers args
      then array_chunks p i l false (py "triggers")
                        (map trigger_entry (fetch_triggers conn rel_oid))
      else []).

Variable schema : pystr.

(** Everything one turn of the relation loop writes. *)
Definition relation_chunks (p : bool) (i l : Z) (row : table_row) : list pystr :=
  relation_head_chunks p i l (fst row) (snd row)
  ++ match get_rel_oid conn schema (fst row) with
     | None =>
         key_chunks p i (l + 1) false (py "error")
         ++ value_chunks p i (l + 1) false (JScalar (JStr (py "rel not found")))
     | Some rel_oid => relation_groups_chunks p i (l + 1) rel_oid
     end
  ++ close_chunks p i l (py "}").

(** Everything [print_schema_tree_json] writes. *)
Definition schema_chunks (p : bool) (i l : Z) : list pystr :=
  [py "{"]
  ++ key_chunks p i (l + 1) true (py "name")
  ++ value_chunks p i (l + 1) false (JScalar (JStr schema))
  ++ (if include_funcs args
      then array_chunks p i (l + 1) false (py "functions")
                        (map function_entry (iter_functions conn schema))
      else [])
  ++ key_chunks p i (l + 1) false (py "relations") ++ [py "["]
  ++ flat_map (relation_chunks p i (l + 2)) (iter_tables conn schema args)
  ++ close_chunks p i (l + 1) (py "]")
  ++ close_chunks p i l (py "}").

End JsonClosedForms.

(** ** The schema iterator and the text branch of [main] *)

(** The options [iter_schemas] reads: [--include-all-schemas],
    [--schema-regex] and [--schema]. *)
Record SchemaArgs := mkSchemaArgs {
  include_all_schemas : bool;
  schema_regex : bool;
  args_schema : option pystr
}.

Section Schemas.

(** [re.search(pattern, s)] for a pattern of the user's: whether it
    found a match, or [None] when it raises on the pattern. *)
Variable re_search : pystr -> pystr -> option bool.

(** The loop of [iter_schemas] over the rows of the cursor: the names
    it yields, or [None] when [re.search] raises on the way. *)
Fixpoint iter_schemas_rows (a : SchemaArgs) (rows : list pystr)
  : option (list pystr) :=
  match rows with
  | [] => Some []
  | nspname :: rows' =>
      let pattern := match args_schema a with Some x => x | None => [] end in
      if schema_regex a
      then
        if truthy (args_schema a)
        then match re_search pattern nspname with
             | None => None
             | Some false => iter_schemas_rows a rows'
             | Some true => option_map (cons nspname) (iter_schemas_rows a rows')
             end
        else option_map (cons nspname) (iter_schemas_rows a rows')
      else
        if truthy (args_schema a) && negb (pystr_eqb nspname pattern)
        then iter_schemas_rows a rows'
        else option_map (cons nspname) (iter_schemas_rows a rows')
  end.

(** [schemas_cur all] is what the cursor returns for the query chosen
    by [--include-all-schemas]. *)
Definition iter_schemas (schemas_cur : bool -> list pystr) (a : SchemaArgs)
  : option (list pystr) :=
  iter_schemas_rows a (schemas_cur (include_all_schemas a)).

End Schemas.

(** The text branch of [main], given the schema names that
    [iter_schemas] yields. *)
Definition main_ascii (unicode_alnum : N -> bool) (conn : Conn) (args : Args)
           (schemas : list pystr) (out : list pystr) : list pystr :=
  fold_left
    (fun out (ks : Z * pystr) =>
       let '(s_idx, schema) := ks in
       let out := if s_idx >? 0 then print [] out else out in
       print_schema_tree_ascii unicode_alnum conn schema args out)
    (enumerate schemas) out.

(** ** Closed forms of a schema's text *)

Section AsciiClosedForms.

Variable unicode_alnum : N -> bool.
Variable conn : Conn.
Variable schema : pystr.
Variable args : Args.

(** The lines of one relation, [last] telling whether it is the last
    child of the schema. *)
Definition relation_lines (last : bool) (row : table_row) : list pystr :=
  (_branch [] last ++ fst row ++ py " " ++ RELKIND_LABEL_get (snd row))
    :: match get_rel_oid conn schema (fst row) with
       | None => [_child_prefix [] last ++ GLYPH_LAST ++ py "(rel not found)"]
       | Some rel_oid =>
           ascii_relation_children unicode_alnum conn args
                                   (_child_prefix [] last) rel_oid []
       end.

(** The lines of the [functions] group, which is the last child of
    the schema when there is no relation. *)
Definition functions_lines : list pystr :=
  if include_funcs args
  then
    let last := negb (nonempty (iter_tables conn schema args)) in
    (_branch [] last ++ py "functions")
      :: leaf_lines function_text (_child_prefix [] last)
                    (iter_functions conn schema)
  else [].

(** The lines under the schema's name. *)
Definition schema_children_lines : list pystr :=
  functions_lines ++ lines_last relation_lines (iter_tables conn schema args).

End AsciiClosedForms.

(** The blocks of lines of several schemas with one empty line between
    two of them. *)
Fixpoint blank_separated (blocks : list (list pystr)) : list pystr :=
  match blocks with
  | [] => []
  | [b] => b
  | b :: rest => b ++ [[]] ++ blank_separated rest
  end.

(** * Properties *)

(** ** Lists and loops *)

Lemma len_cons {A : Type} (x : A) (l : list A) : len (x :: l) = 1 + len l.
Proof. unfold len. cbn [List.length]. lia. Qed.

Lemma len_nonneg {A : Type} (l : list A) : 0 <= len l.
Proof. unfold len. lia. Qed.

(** A loop over [enumerate] whose turn appends [emit (k == n - 1) x]
    produces the closed form [lines_last]. *)
Lemma fold_enumerate_last {A : Type} (emit : bool -> A -> list pystr)
      (step : list pystr -> Z * A -> list pystr) (n : Z) :
  (forall out k x, step out (k, x) = out ++ emit (k =? n - 1) x) ->
  forall rows i out,
    i + len rows = n ->
    fold_left step (enumerate_from i rows) out = out ++ lines_last emit rows.
Proof.
  intros Hstep rows. induction rows as [|x rest IH]; intros i out Hn.
  - cbn. now rewrite app_nil_r.
  - cbn [enumerate_from fold_left]. rewrite Hstep.
    destruct rest as [|y rest'].
    + cbn. rewrite len_cons in Hn. unfold len in Hn. cbn in Hn.
      replace (i =? n - 1) with true by (symmetry; apply Z.eqb_eq; lia).
      reflexivity.
    + rewrite (IH (i + 1)).
      * rewrite !len_cons in Hn. pose proof (len_nonneg rest').
        replace (i =? n - 1) with false by (symmetry; apply Z.eqb_neq; lia).
        cbn [lines_last]. now rewrite app_assoc.
      * rewrite len_cons in Hn. lia.
Qed.

Lemma print_leaves_spec {A : Type} (text : A -> pystr) (prefix : pystr)
      (rows : list A) (out : list pystr) :
  print_leaves text prefix rows out = out ++ leaf_lines text prefix rows.
Proof.
  unfold print_leaves, leaf_lines, enumerate.
  apply fold_enumerate_last with (n := len rows).
  - intros o k x. reflexivity.
  - lia.
Qed.

(** ** The text renderer's groups *)

Lemma ascii_group_body_fkeys (g_prefix : pystr) (fko fki : list fkey_row)
      (out : list pystr) :
  ascii_group_body g_prefix (GFkeys fko fki) out
  = out ++ fkeys_lines g_prefix fko fki.
Proof.
  unfold ascii_group_body, fkeys_lines, print.
  destruct fki as [|i fki'], fko as [|o fko']; cbn [nonempty negb];
    rewrite ?print_leaves_spec; unfold _branch, _child_prefix;
    rewrite <- ?app_assoc; reflexivity.
Qed.

Lemma ascii_group_body_app (g_prefix : pystr) (g : gdata) (out : list pystr) :
  ascii_group_body g_prefix g out = out ++ ascii_group_body g_prefix g [].
Proof.
  destruct g as [idxs|fko fki|trgs].
  - cbn [ascii_group_body]. now rewrite !print_leaves_spec.
  - now rewrite !ascii_group_body_fkeys.
  - cbn [ascii_group_body]. destruct (nonempty trgs).
    + now rewrite !print_leaves_spec.
    + reflexivity.
Qed.

Lemma ascii_groups_spec (prefix : pystr) (enabled : list gdata) (out : list pystr) :
  ascii_groups prefix enabled out = out ++ lines_last (group_block prefix) enabled.
Proof.
  unfold ascii_groups, enumerate.
  apply fold_enumerate_last with (n := len enabled).
  - intros o k g. rewrite ascii_group_body_app. unfold print, group_block.
    rewrite <- app_assoc. reflexivity.
  - lia.
Qed.

(** ** The document writer's methods *)

Lemma bind_run {A B : Type} (c : JS A) (k : A -> JS B) (st st' : JsonStream) (a : A) :
  c st = Some (a, st') -> bind c k st = k a st'.
Proof. intros H. unfold bind. now rewrite H. Qed.

Lemma key_run (k : pystr) o p i l f fs :
  key k (mkJS o p i l (f :: fs))
  = Some (tt, mkJS (o ++ key_chunks p i l f k) p i l (false :: fs)).
Proof.
  unfold key, bind, _comma_if_needed, _nl, _pad, write, ret, key_chunks, sep,
    nlpad, colon, dumps, dumps_scalar.
  destruct f, p; cbn [first_stack pretty out indent level negb];
    rewrite <- ?app_assoc; reflexivity.
Qed.

Lemma value_run (v : jvalue) o p i l f fs :
  value v (mkJS o p i l (f :: fs))
  = Some (tt, mkJS (o ++ value_chunks p i l f v) p i l (false :: fs)).
Proof.
  unfold value, bind, _comma_if_needed, _nl, _pad, write, ret, value_chunks, sep,
    nlpad.
  destruct f, p; cbn [first_stack pretty out indent level negb];
    rewrite <- ?app_assoc; reflexivity.
Qed.

Lemma item_run (v : jvalue) o p i l f fs :
  item v (mkJS o p i l (f :: fs))
  = Some (tt, mkJS (o ++ value_chunks p i l f v) p i l (false :: fs)).
Proof. exact (value_run v o p i l f fs). Qed.

Lemma begin_obj_run o p i l fs :
  begin_obj (mkJS o p i l fs)
  = Some (tt, mkJS (o ++ [py "{"]) p i (l + 1) (true :: fs)).
Proof. reflexivity. Qed.

Lemma begin_array_run o p i l fs :
  begin_array (mkJS o p i l fs)
  = Some (tt, mkJS (o ++ [py "["]) p i (l + 1) (true :: fs)).
Proof. reflexivity. Qed.

Lemma end_obj_run o p i l f fs :
  end_obj (mkJS o p i (l + 1) (f :: fs))
  = Some (tt, mkJS (o ++ close_chunks p i l (py "}")) p i l fs).
Proof.
  unfold end_obj, bind, add_level, _nl, _pad, write, ret, pop_first,
    close_chunks, nlpad.
  destruct p; cbn [first_stack pretty out indent level];
    replace (l + 1 + -1) with l by lia;
    rewrite <- ?app_assoc; reflexivity.
Qed.

Lemma end_array_run o p i l f fs :
  end_array (mkJS o p i (l + 1) (f :: fs))
  = Some (tt, mkJS (o ++ close_chunks p i l (py "]")) p i l fs).
Proof.
  unfold end_array, bind, add_level, _nl, _pad, write, ret, pop_first,
    close_chunks, nlpad.
  destruct p; cbn [first_stack pretty out indent level];
    replace (l + 1 + -1) with l by lia;
    rewrite <- ?app_assoc; reflexivity.
Qed.

(** A loop of [item] calls writes the items with a separator before
    each but the first, and leaves the flag lowered unless there was no
    row at all. *)
Lemma for_each_item_run {A : Type} (entry : A -> jvalue) (rows : list A)
      o p i l f fs :
  for_each rows (fun row => item (entry row)) (mkJS o p i l (f :: fs))
  = Some (tt, mkJS (o ++ items_chunks p i l f (map entry rows)) p i l
                   ((f && negb (nonempty rows)) :: fs)).
Proof.
  revert o f. induction rows as [|x rows IH]; intros o f.
  - cbn. now rewrite app_nil_r, andb_true_r.
  - cbn [for_each map items_chunks]. rewrite (bind_run _ _ _ _ _ (item_run _ _ _ _ _ _ _)).
    rewrite IH. cbn [nonempty negb andb]. rewrite andb_false_r, <- app_assoc.
    reflexivity.
Qed.

(** ** The document writer's blocks *)

Ltac js_step :=
  first
    [ rewrite (bind_run _ _ _ _ _ (key_run _ _ _ _ _ _ _))
    | rewrite (bind_run _ _ _ _ _ (value_run _ _ _ _ _ _ _))
    | rewrite (bind_run _ _ _ _ _ (item_run _ _ _ _ _ _ _))
    | rewrite (bind_run _ _ _ _ _ (begin_obj_run _ _ _ _ _))
    | rewrite (bind_run _ _ _ _ _ (begin_array_run _ _ _ _ _))
    | rewrite (bind_run _ _ _ _ _ (end_obj_run _ _ _ _ _ _))
    | rewrite (bind_run _ _ _ _ _ (end_array_run _ _ _ _ _ _))
    | rewrite (bind_run _ _ _ _ _ (for_each_item_run _ _ _ _ _ _ _ _))
    | rewrite key_run | rewrite value_run | rewrite item_run
    | rewrite begin_obj_run | rewrite begin_array_run
    | rewrite end_obj_run | rewrite end_array_run
    | rewrite for_each_item_run ].

Ltac js_done :=
  repeat rewrite <- app_assoc; reflexivity.

Lemma keyed_array_run {A : Type} (k : pystr) (entry : A -> jvalue)
      (rows : list A) o p i l f fs :
  (key k ;; begin_array ;;
   for_each rows (fun row => item (entry row)) ;; end_array)
    (mkJS o p i l (f :: fs))
  = Some (tt, mkJS (o ++ array_chunks p i l f k (map entry rows)) p i l
                   (false :: fs)).
Proof. repeat js_step. unfold array_chunks. js_done. Qed.

Section JsonBlocks.

Variable unicode_alnum : N -> bool.
Variable conn : Conn.
Variable schema : pystr.
Variable args : Args.

Lemma json_columns_run rel_oid o p i l f fs :
  json_columns unicode_alnum conn rel_oid (mkJS o p i l (f :: fs))
  = Some (tt, mkJS (o ++ array_chunks p i l f (py "columns")
                          (map (column_entry unicode_alnum)
                               (fetch_columns conn rel_oid)))
                   p i l (false :: fs)).
Proof. apply keyed_array_run. Qed.

Lemma json_indexes_run rel_oid o p i l f fs :
  json_indexes conn rel_oid (mkJS o p i l (f :: fs))
  = Some (tt, mkJS (o ++ array_chunks p i l f (py "indexes")
                          (map index_entry (fetch_indexes conn rel_oid)))
                   p i l (false :: fs)).
Proof. apply keyed_array_run. Qed.

Lemma json_triggers_run rel_oid o p i l f fs :
  json_triggers conn rel_oid (mkJS o p i l (f :: fs))
  = Some (tt, mkJS (o ++ array_chunks p i l f (py "triggers")
                          (map trigger_entry (fetch_triggers conn rel_oid)))
                   p i l (false :: fs)).
Proof. apply keyed_array_run. Qed.

Lemma json_fkeys_run rel_oid o p i l f fs :
  json_fkeys conn rel_oid (mkJS o p i l (f :: fs))
  = Some (tt, mkJS (o ++ fkeys_chunks p i l f (fetch_fkeys_out conn rel_oid)
                                      (fetch_fkeys_in conn rel_oid))
                   p i l (false :: fs)).
Proof.
  unfold json_fkeys. repeat js_step.
  unfold fkeys_chunks, array_chunks. js_done.
Qed.

Lemma json_relation_missing_run tname relkind o p i l fs :
  get_rel_oid conn schema tname = None ->
  json_relation unicode_alnum conn schema args (tname, relkind)
                (mkJS o p i l fs)
  = Some (tt, mkJS (o ++ relation_head_chunks p i l tname relkind
                      ++ key_chunks p i (l + 1) false (py "error")
                      ++ value_chunks p i (l + 1) false
                                      (JScalar (JStr (py "rel not found")))
                      ++ close_chunks p i l (py "}"))
                   p i l fs).
Proof.
  intros Hoid. unfold json_relation. rewrite Hoid.
  repeat js_step. unfold relation_head_chunks. js_done.
Qed.

Lemma json_relation_found_run tname relkind rel_oid o p i l fs :
  get_rel_oid conn schema tname = Some rel_oid ->
  json_relation unicode_alnum conn schema args (tname, relkind)
                (mkJS o p i l fs)
  = Some (tt, mkJS (o ++ relation_head_chunks p i l tname relkind
                      ++ relation_groups_chunks unicode_alnum conn args p i (l + 1) rel_oid
                      ++ close_chunks p i l (py "}"))
                   p i l fs).
Proof.
  intros Hoid. unfold json_relation. rewrite Hoid.
  repeat js_step.
  rewrite (bind_run _ _ _ _ _ (json_columns_run _ _ _ _ _ _ _)).
  unfold relation_head_chunks, relation_groups_chunks.
  destruct (include_indexes args), (include_fkeys args), (include_triggers args);
    repeat first
      [ rewrite (bind_run _ _ _ _ _ (json_indexes_run _ _ _ _ _ _ _))
      | rewrite (bind_run _ _ _ _ _ (json_fkeys_run _ _ _ _ _ _ _))
      | rewrite (bind_run _ _ _ _ _ (json_triggers_run _ _ _ _ _ _ _))
      | rewrite (bind_run _ _ _ _ _ (eq_refl : ret tt _ = Some (tt, _)))
      | js_step ];
    rewrite ?app_nil_r; js_done.
Qed.

Lemma json_relation_run (row : table_row) o p i l fs :
  json_relation unicode_alnum conn schema args row (mkJS o p i l fs)
  = Some (tt, mkJS (o ++ relation_chunks unicode_alnum conn args schema p i l row)
                   p i l fs).
Proof.
  destruct row as [tname relkind]. unfold relation_chunks. cbn [fst snd].
  destruct (get_rel_oid conn schema tname) as [rel_oid|] eqn:Hoid.
  - rewrite (json_relation_found_run tname relkind rel_oid o p i l fs Hoid).
    reflexivity.
  - rewrite (json_relation_missing_run tname relkind o p i l fs Hoid).
    rewrite <- !app_assoc. reflexivity.
Qed.

(** The relation loop returns, and writes the relation objects one
    after the other with nothing between them. *)
Lemma for_each_relation_run (rows : list table_row) o p i l fs :
  for_each rows (json_relation unicode_alnum conn schema args) (mkJS o p i l fs)
  = Some (tt, mkJS (o ++ flat_map (relation_chunks unicode_alnum conn args schema
                                                   p i l) rows)
                   p i l fs).
Proof.
  revert o. induction rows as [|row rows IH]; intros o.
  - cbn. now rewrite app_nil_r.
  - cbn [for_each flat_map]. rewrite (bind_run _ _ _ _ _ (json_relation_run _ _ _ _ _ _)).
    rewrite IH, <- app_assoc. reflexivity.
Qed.

(** [print_schema_tree_json] returns on every catalog, from every state
    of the stream. *)
Lemma print_schema_tree_json_run o p i l fs :
  print_schema_tree_json unicode_alnum conn schema args (mkJS o p i l fs)
  = Some (tt, mkJS (o ++ schema_chunks unicode_alnum conn args schema p i l)
                   p i l fs).
Proof.
  unfold print_schema_tree_json, schema_chunks.
  replace (l + 2) with (l + 1 + 1) by lia. repeat js_step.
  destruct (include_funcs args).
  - rewrite (bind_run _ _ _ _ _ (keyed_array_run _ _ _ _ _ _ _ _ _)).
    repeat js_step.
    rewrite (bind_run _ _ _ _ _ (for_each_relation_run _ _ _ _ _ _)).
    repeat js_step. js_done.
  - rewrite (bind_run _ _ _ _ _ (eq_refl : ret tt _ = Some (tt, _))).
    repeat js_step.
    rewrite (bind_run _ _ _ _ _ (for_each_relation_run _ _ _ _ _ _)).
    repeat js_step. cbn [app]. js_done.
Qed.

End JsonBlocks.

(** ** The text renderer's relations *)

Section AsciiRelations.

Variable unicode_alnum : N -> bool.
Variable conn : Conn.
Variable schema : pystr.
Variable args : Args.

(** The list [enabled] holds the enabled groups in the order indexes,
    foreign_keys, triggers. *)
Lemma enabled_groups_spec (rel_oid : Z) :
  enabled_groups conn args rel_oid
  = (if include_indexes args then [GIndexes (fetch_indexes conn rel_oid)] else [])
    ++ (if include_fkeys args
        then [GFkeys (fetch_fkeys_out conn rel_oid) (fetch_fkeys_in conn rel_oid)]
        else [])
    ++ (if include_triggers args then [GTriggers (fetch_triggers conn rel_oid)] else []).
Proof.
  unfold enabled_groups.
  destruct (include_indexes args), (include_fkeys args), (include_triggers args);
    reflexivity.
Qed.

Lemma ascii_relation_children_spec (prefix : pystr) (rel_oid : Z) (out : list pystr) :
  let cols := fetch_columns conn rel_oid in
  let last := negb (include_indexes args || include_fkeys args || include_triggers args)
              && negb (nonempty cols) in
  ascii_relation_children unicode_alnum conn args prefix rel_oid out
  = out ++ [_branch prefix last ++ py "columns"]
        ++ leaf_lines (column_text unicode_alnum) (_child_prefix prefix last) cols
        ++ lines_last (group_block prefix) (enabled_groups conn args rel_oid).
Proof.
  cbv zeta. unfold ascii_relation_children.
  rewrite ascii_groups_spec, print_leaves_spec. unfold print.
  rewrite <- !app_assoc. reflexivity.
Qed.

(** One turn of the relation loop on a relation whose oid is known. *)
Lemma ascii_relation_found_spec (tname relkind : pystr) (rel_oid : Z)
      (idx_top top_children : Z) (out : list pystr) (idx : Z) :
  get_rel_oid conn schema tname = Some rel_oid ->
  let level1 := _child_prefix [] (idx_top + idx =? top_children - 1) in
  let cols := fetch_columns conn rel_oid in
  let cols_last :=
    negb (include_indexes args || include_fkeys args || include_triggers args)
    && negb (nonempty cols) in
  fst (ascii_relation unicode_alnum conn schema args idx_top top_children
                      (out, idx) (tname, relkind))
  = out
      ++ [_branch [] (idx_top + idx =? top_children - 1) ++ tname ++ py " "
            ++ RELKIND_LABEL_get relkind]
      ++ [_branch level1 cols_last ++ py "columns"]
      ++ leaf_lines (column_text unicode_alnum)
                    (_child_prefix level1 cols_last) cols
      ++ (if include_indexes args
          then group_block level1
                 (negb (include_fkeys args || include_triggers args))
                 (GIndexes (fetch_indexes conn rel_oid))
          else [])
      ++ (if include_fkeys args
          then group_block level1 (negb (include_triggers args))
                 (GFkeys (fetch_fkeys_out conn rel_oid)
                         (fetch_fkeys_in conn rel_oid))
          else [])
      ++ (if include_triggers args
          then group_block level1 true
                 (GTriggers (fetch_triggers conn rel_oid))
          else []).
Proof.
  intros Hoid. cbv zeta.
  unfold ascii_relation. rewrite Hoid. cbn [fst].
  rewrite ascii_relation_children_spec, enabled_groups_spec. unfold print.
  rewrite <- !app_assoc. do 4 f_equal.
  destruct (include_indexes args), (include_fkeys args), (include_triggers args);
    cbn [app lines_last orb negb]; rewrite ?app_nil_r; reflexivity.
Qed.

End AsciiRelations.

(** ** The scenarios of the specification *)

(** C3. For schema [app] with the one table [users] (columns
    [id integer not null] and [email text], no defaults) and no optional
    group enabled, the text renderer prints five lines of which the
    third is the [columns] line with the middle glyph and the column
    lines hang under a continuation bar; this is not the five lines of
    the specification's scenario, whose [columns] line carries the
    closing glyph. *)
Theorem users_scenario_text (unicode_alnum : N -> bool) :
  print_schema_tree_ascii unicode_alnum conn_users (py "app") args_none []
  = [ py "app";
      GLYPH_LAST ++ py "users [table]";
      GLYPH_GAP ++ GLYPH_MID ++ py "columns";
      GLYPH_GAP ++ GLYPH_BAR ++ GLYPH_MID ++ py "id: integer NOT NULL";
      GLYPH_GAP ++ GLYPH_BAR ++ GLYPH_LAST ++ py "email: text" ]
  /\ print_schema_tree_ascii unicode_alnum conn_users (py "app") args_none []
     <> [ py "app";
          GLYPH_LAST ++ py "users [table]";
          GLYPH_GAP ++ GLYPH_LAST ++ py "columns";
          GLYPH_GAP ++ GLYPH_GAP ++ GLYPH_MID ++ py "id: integer NOT NULL";
          GLYPH_GAP ++ GLYPH_GAP ++ GLYPH_LAST ++ py "email: text" ].
Proof.
  split.
  - vm_compute. reflexivity.
  - vm_compute. discriminate.
Qed.

(** C2. Two sibling groups of the text renderer that do not carry the
    closing glyph exactly once. With no optional group enabled, the
    children of [users] are the single [columns] line, and no child
    carries the closing glyph. With foreign keys enabled and no incoming
    reference, the children of [foreign_keys] are [outgoing] and
    [incoming], and both carry the closing glyph. *)
Theorem last_glyph_miscounted (unicode_alnum : N -> bool) :
  (let lines := print_schema_tree_ascii unicode_alnum conn_users (py "app")
                                        args_none [] in
   count_members GLYPH_GAP lines = 1%nat /\ count_last GLYPH_GAP lines = 0%nat)
  /\ (let lines := print_schema_tree_ascii unicode_alnum conn_users (py "app")
                                           args_fkeys [] in
      count_members (GLYPH_GAP ++ GLYPH_GAP) lines = 2%nat
      /\ count_last (GLYPH_GAP ++ GLYPH_GAP) lines = 2%nat
      /\ nth 5 lines [] = GLYPH_GAP ++ GLYPH_LAST ++ py "foreign_keys"
      /\ nth 6 lines [] = GLYPH_GAP ++ GLYPH_GAP ++ GLYPH_LAST ++ py "outgoing"
      /\ nth 8 lines [] = GLYPH_GAP ++ GLYPH_GAP ++ GLYPH_LAST ++ py "incoming").
Proof. vm_compute. repeat split. Qed.

(** C1. The document for schema [app] with the two tables [a] and [b],
    in compact mode: a separator is written between every key and its
    value, none between the two relation objects of the [relations]
    array, and ten in all. *)
Theorem separators_misplaced (unicode_alnum : N -> bool) :
  exists st,
    main_json unicode_alnum conn_pair args_none [py "app"] false
              (JsonStream_init [] false 2) = Some (tt, st)
    /\ written (out st)
       = dq "{'schemas':[{'name':,'app','relations':[{'name':,'a','kind':,'[table]','columns':[{'name': 'id', 'type': 'integer', 'not_null': true}]}{'name':,'b','kind':,'[table]','columns':[]}]}]}"
    /\ separators (out st) = 10%nat.
Proof. eexists. vm_compute. repeat split. Qed.

(** ** Index tags *)


(** ** Relation kinds *)




(** ** Relations that no longer resolve *)

(** One turn of both relation loops when the oid lookup returns no
    row: the text renderer prints the relation's line and the single
    child [(rel not found)] with the closing glyph; the document writer
    writes the relation object with the keys [name], [kind] and [error]
    and no other key, a separator standing between each key and its
    value; both loops go on with the relations that follow. *)
Theorem relation_not_found (unicode_alnum : N -> bool) (conn : Conn)
        (schema : pystr) (args : Args) (tname relkind : pystr) :
  get_rel_oid conn schema tname = None ->
  (forall idx_top top_children out idx rest,
      let is_last_table := idx_top + idx =? top_children - 1 in
      fold_left (ascii_relation unicode_alnum conn schema args idx_top top_children)
                ((tname, relkind) :: rest) (out, idx)
      = fold_left (ascii_relation unicode_alnum conn schema args idx_top top_children)
                  rest
                  (out ++ [ _branch [] is_last_table ++ tname ++ py " "
                              ++ RELKIND_LABEL_get relkind;
                            _child_prefix [] is_last_table ++ GLYPH_LAST
                              ++ py "(rel not found)" ],
                   idx + 1))
  /\ (forall rest o p i l fs,
         for_each ((tname, relkind) :: rest)
                  (json_relation unicode_alnum conn schema args) (mkJS o p i l fs)
         = for_each rest (json_relation unicode_alnum conn schema args)
                    (mkJS (o ++ [py "{"]
                             ++ key_chunks p i (l + 1) true (py "name")
                             ++ value_chunks p i (l + 1) false (JScalar (JStr tname))
                             ++ key_chunks p i (l + 1) false (py "kind")
                             ++ value_chunks p i (l + 1) false
                                  (JScalar (JStr (RELKIND_LABEL_get relkind)))
                             ++ key_chunks p i (l + 1) false (py "error")
                             ++ value_chunks p i (l + 1) false
                                  (JScalar (JStr (py "rel not found")))
                             ++ close_chunks p i l (py "}"))
                          p i l fs)).
Proof.
  intros Hoid. split.
  - intros idx_top top_children o idx rest. cbv zeta.
    cbn [fold_left]. f_equal.
    unfold ascii_relation. rewrite Hoid. unfold print, _branch at 2.
    rewrite <- !app_assoc. reflexivity.
  - intros rest o p i l fs. cbn [for_each].
    rewrite (bind_run _ _ _ _ _
               (json_relation_missing_run _ _ _ _ _ _ _ _ _ _ _ Hoid)).
    unfold relation_head_chunks. rewrite <- !app_assoc. reflexivity.
Qed.

Lemma relation_not_found_witness :
  fold_left (ascii_relation (fun _ => false) conn_vanished (py "app") args_none 0 2)
            [(py "a", py "r"); (py "b", py "r")] ([py "app"], 0)
  = fold_left (ascii_relation (fun _ => false) conn_vanished (py "app") args_none 0 2)
              [(py "b", py "r")]
              ([ py "app";
                 GLYPH_MID ++ py "a [table]";
                 GLYPH_BAR ++ GLYPH_LAST ++ py "(rel not found)" ], 1).
Proof.
  exact (proj1 (relation_not_found (fun _ => false) conn_vanished (py "app")
                                   args_none (py "a") (py "r") eq_refl)
               0 2 [py "app"] 0 [(py "b", py "r")]).
Defined.

(** C4. Table [a] of schema [app] no longer resolves to an oid. The
    text renderer prints its line and the single child
    [(rel not found)] with the closing glyph. The document writer, in
    compact mode, writes the relation object with the keys [name],
    [kind] and [error] and no [columns] or optional key, but with a
    separator between each key and its value: the text
    ["error":,"rel not found"] and nowhere ["error":"rel not found"]. *)
Theorem relation_not_found_separator (unicode_alnum : N -> bool) :
  get_rel_oid conn_vanished (py "app") (py "a") = None
  /\ fst (ascii_relation unicode_alnum conn_vanished (py "app") args_none 0 2
                         ([py "app"], 0) (py "a", py "r"))
     = [ py "app";
         GLYPH_MID ++ py "a [table]";
         GLYPH_BAR ++ GLYPH_LAST ++ py "(rel not found)" ]
  /\ exists st,
       json_relation unicode_alnum conn_vanished (py "app") args_none
                     (py "a", py "r") (mkJS [] false 2 2 [true])
       = Some (tt, st)
       /\ written (out st)
          = dq "{'name':,'a','kind':,'[table]','error':,'rel not found'}"
       /\ occurs (dq "'error':,'rel not found'") (written (out st)) = true
       /\ occurs (dq "'error':'rel not found'") (written (out st)) = false
       /\ occurs (dq "'columns'") (written (out st)) = false.
Proof.
  split; [reflexivity|]. split; [vm_compute; reflexivity|].
  eexists. vm_compute. repeat split.
Qed.

(** ** The groups of a relation *)



(** ** Foreign keys *)

(** C5. With foreign keys enabled and the relation's oid known, the
    text renderer prints the [foreign_keys] line followed by the
    [outgoing] and the [incoming] sub-group, and the document writer
    writes the member [foreign_keys] holding the arrays [outgoing] and
    [incoming]. An empty direction is the single leaf [(none)] under
    its line in the text and an array with no item in the document. *)
Theorem foreign_keys_both_directions (unicode_alnum : N -> bool) (conn : Conn)
        (schema : pystr) (args : Args) (tname relkind : pystr) (rel_oid : Z) :
  include_fkeys args = true ->
  get_rel_oid conn schema tname = Some rel_oid ->
  let fko := fetch_fkeys_out conn rel_oid in
  let fki := fetch_fkeys_in conn rel_oid in
  (forall idx_top top_children out idx,
      let level1 := _child_prefix [] (idx_top + idx =? top_children - 1) in
      let is_last_group := negb (include_triggers args) in
      exists before after,
        fst (ascii_relation unicode_alnum conn schema args idx_top top_children
                            (out, idx) (tname, relkind))
        = out ++ before
              ++ [_branch level1 is_last_group ++ py "foreign_keys"]
              ++ fkeys_lines (_child_prefix level1 is_last_group) fko fki
              ++ after)
  /\ (forall o p i l fs,
         exists before after st,
           json_relation unicode_alnum conn schema args (tname, relkind)
                         (mkJS o p i l fs) = Some (tt, st)
           /\ out st = o ++ before ++ fkeys_chunks p i (l + 1) false fko fki ++ after)
  /\ (forall g,
         exists outgoing_part,
           fkeys_lines g fko []
           = outgoing_part ++ [ g ++ GLYPH_LAST ++ py "incoming";
                                g ++ GLYPH_GAP ++ GLYPH_LAST ++ py "(none)" ])
  /\ (forall g,
         exists incoming_part,
           fkeys_lines g [] fki
           = [ _branch g (negb (nonempty fki)) ++ py "outgoing";
               _child_prefix g (negb (nonempty fki)) ++ GLYPH_LAST ++ py "(none)" ]
               ++ incoming_part)
  /\ (forall p i l first k,
         array_chunks p i l first k []
         = key_chunks p i l first k ++ [py "["] ++ close_chunks p i l (py "]"))
  /\ written (array_chunks false 2 3 false (py "incoming") []) = dq ",'incoming':[]".
Proof.
  intros Hfk Hoid. cbv zeta.
  split; [|split; [|split; [|split; [|split]]]].
  - intros idx_top top_children o idx.
    rewrite (ascii_relation_found_spec unicode_alnum conn schema args tname relkind
               rel_oid idx_top top_children o idx Hoid).
    rewrite Hfk. unfold group_block at 2. rewrite ascii_group_body_fkeys.
    cbn [gname app].
    exists ([_branch [] (idx_top + idx =? top_children - 1) ++ tname ++ py " "
               ++ RELKIND_LABEL_get relkind]
            ++ [_branch (_child_prefix [] (idx_top + idx =? top_children - 1))
                  (negb (include_indexes args || true || include_triggers args)
                   && negb (nonempty (fetch_columns conn rel_oid)))
                  ++ py "columns"]
            ++ leaf_lines (column_text unicode_alnum)
                 (_child_prefix (_child_prefix [] (idx_top + idx =? top_children - 1))
                    (negb (include_indexes args || true || include_triggers args)
                     && negb (nonempty (fetch_columns conn rel_oid))))
                 (fetch_columns conn rel_oid)
            ++ (if include_indexes args
                then group_block (_child_prefix [] (idx_top + idx =? top_children - 1))
                       (negb (true || include_triggers args))
                       (GIndexes (fetch_indexes conn rel_oid))
                else [])).
    exists (if include_triggers args
            then group_block (_child_prefix [] (idx_top + idx =? top_children - 1))
                   true (GTriggers (fetch_triggers conn rel_oid))
            else []).
    rewrite <- !app_assoc. reflexivity.
  - intros o p i l fs.
    rewrite (json_relation_found_run _ _ _ _ _ _ _ _ _ _ _ _ Hoid).
    unfold relation_groups_chunks. rewrite Hfk.
    exists (relation_head_chunks p i l tname relkind
            ++ array_chunks p i (l + 1) false (py "columns")
                 (map (column_entry unicode_alnum) (fetch_columns conn rel_oid))
            ++ (if include_indexes args
                then array_chunks p i (l + 1) false (py "indexes")
                       (map index_entry (fetch_indexes conn rel_oid))
                else [])).
    exists ((if include_triggers args
             then array_chunks p i (l + 1) false (py "triggers")
                    (map trigger_entry (fetch_triggers conn rel_oid))
             else [])
            ++ close_chunks p i l (py "}")).
    eexists. split; [reflexivity|]. cbn [out].
    rewrite <- !app_assoc. reflexivity.
  - intros g. unfold fkeys_lines. cbn [nonempty negb].
    exists ([_branch g true ++ py "outgoing"]
            ++ (if nonempty (fetch_fkeys_out conn rel_oid)
                then leaf_lines fkey_out_text (_child_prefix g true)
                       (fetch_fkeys_out conn rel_oid)
                else [_child_prefix g true ++ GLYPH_LAST ++ py "(none)"])).
    rewrite <- !app_assoc. reflexivity.
  - intros g. unfold fkeys_lines. cbn [nonempty]. eexists. reflexivity.
  - intros p i l first k. unfold array_chunks. reflexivity.
  - vm_compute. reflexivity.
Qed.

Lemma foreign_keys_both_directions_witness :
  exists before after,
    fst (ascii_relation (fun _ => false) conn_users (py "app") args_fkeys 0 1
                        ([], 0) (py "users", py "r"))
    = [] ++ before
         ++ [GLYPH_GAP ++ GLYPH_LAST ++ py "foreign_keys"]
         ++ [ GLYPH_GAP ++ GLYPH_GAP ++ GLYPH_LAST ++ py "outgoing";
              GLYPH_GAP ++ GLYPH_GAP ++ GLYPH_GAP ++ GLYPH_LAST ++ py "(none)";
              GLYPH_GAP ++ GLYPH_GAP ++ GLYPH_LAST ++ py "incoming";
              GLYPH_GAP ++ GLYPH_GAP ++ GLYPH_GAP ++ GLYPH_LAST ++ py "(none)" ]
         ++ after.
Proof.
  exact (proj1 (foreign_keys_both_directions (fun _ => false) conn_users (py "app")
                  args_fkeys (py "users") (py "r") 16384 eq_refl eq_refl)
               0 1 [] 0).
Defined.

(** ** Whitespace normalization *)











Example oneline_example :
  oneline (py "CREATE  INDEX" ++ [9; 10]%N ++ py "i ON t ") = py "CREATE INDEX i ON t".
Proof. vm_compute. reflexivity. Qed.

(** ** The function name of a default expression *)

Section Extraction.

Variable unicode_alnum : N -> bool.

Lemma star_some {A : Type} (p : N -> bool) (s acc : pystr)
      (k : pystr -> pystr -> option A) (r : A) :
  star p acc s k = Some r ->
  exists taken rest,
    s = taken ++ rest /\ forallb p taken = true /\ k (acc ++ taken) rest = Some r.
Proof.
  revert acc. induction s as [|c s IH]; intros acc H.
  - exists [], []. cbn in H. rewrite (app_nil_r acc). auto.
  - cbn [star] in H. destruct (p c) eqn:Hc.
    + destruct (star p (acc ++ [c]) s k) as [r'|] eqn:E.
      * injection H as ->. apply IH in E as (taken & rest & -> & Htaken & Hk).
        exists (c :: taken), rest. cbn [forallb app]. rewrite Hc, Htaken.
        rewrite <- app_assoc in Hk. auto.
      * exists [], (c :: s). rewrite (app_nil_r acc). auto.
    + exists [], (c :: s). rewrite (app_nil_r acc). auto.
Qed.

Lemma ident_some {A : Type} (s : pystr) (k : pystr -> pystr -> option A) (r : A) :
  ident unicode_alnum s k = Some r ->
  exists name rest,
    s = name ++ rest /\ identifier unicode_alnum name = true /\ k name rest = Some r.
Proof.
  unfold ident. destruct s as [|c s]; [discriminate|].
  destruct (ident_start c) eqn:Hc; [|discriminate].
  intros H. apply star_some in H as (taken & rest & -> & Htaken & Hk).
  exists (c :: taken), rest. cbn [identifier app]. rewrite Hc, Htaken. auto.
Qed.

Lemma func_then_paren_some (s fn : pystr) :
  func_then_paren unicode_alnum s = Some fn ->
  identifier unicode_alnum fn = true
  /\ exists ws rest, s = fn ++ ws ++ 40%N :: rest /\ forallb isspace ws = true.
Proof.
  unfold func_then_paren. intros H.
  apply ident_some in H as (name & rest & -> & Hname & H).
  apply star_some in H as (ws & rest' & -> & Hws & H).
  destruct rest' as [|c rest']; [discriminate|].
  destruct c as [|c]; [discriminate|].
  destruct (Pos.eq_dec c 40) as [->|Hne].
  - injection H as <-. split; [exact Hname|]. now exists ws, rest'.
  - exfalso. revert H.
    repeat (destruct c as [c|c|]; try discriminate). congruence.
Qed.

(** What a match of the pattern says about the text: leading
    whitespace, an optional qualifier with its dot, the function name,
    whitespace, an opening parenthesis. *)
Lemma FUNC_NAME_RE_match_some (s fn : pystr) :
  FUNC_NAME_RE_match unicode_alnum s = Some fn ->
  identifier unicode_alnum fn = true
  /\ exists lead qual ws rest,
       s = lead ++ qual ++ fn ++ ws ++ 40%N :: rest
       /\ forallb isspace lead = true
       /\ forallb isspace ws = true
       /\ (qual = [] \/ exists q, qual = q ++ [46%N] /\ identifier unicode_alnum q = true).
Proof.
  unfold FUNC_NAME_RE_match. intros H.
  apply star_some in H as (lead & s1 & -> & Hlead & H).
  match type of H with
  | match ?m with _ => _ end = _ => destruct m as [r|] eqn:E
  end.
  - injection H as ->.
    apply ident_some in E as (q & s2 & -> & Hq & E).
    destruct s2 as [|c s3]; [discriminate|].
    destruct c as [|c]; [discriminate|].
    destruct (Pos.eq_dec c 46) as [->|Hne].
    + apply func_then_paren_some in E as (Hfn & ws & rest & -> & Hws).
      split; [exact Hfn|].
      exists lead, (q ++ [46%N]), ws, rest. rewrite <- !app_assoc. cbn [app].
      repeat split; auto. right. now exists q.
    + exfalso. revert E.
      repeat (destruct c as [c|c|]; try discriminate). congruence.
  - apply func_then_paren_some in H as (Hfn & ws & rest & -> & Hws).
    split; [exact Hfn|]. exists lead, [], ws, rest. cbn [app].
    repeat split; auto.
Qed.

End Extraction.


Example extract_qualified :
  extract_default_func_name (fun _ => false)
                            (Some (py "  public.nextval ('s'::regclass)"))
  = Some (py "nextval").
Proof. vm_compute. reflexivity. Qed.

Example extract_plain :
  extract_default_func_name (fun _ => false) (Some (py "now()")) = Some (py "now").
Proof. vm_compute. reflexivity. Qed.

Example extract_literal :
  extract_default_func_name (fun _ => false) (Some (py "'x'::text")) = None.
Proof. vm_compute. reflexivity. Qed.

Example extract_no_paren :
  extract_default_func_name (fun _ => false) (Some (py "a.b c(")) = None.
Proof. vm_compute. reflexivity. Qed.

(** ** Where the separators and the closing glyphs go in general *)

(** A value written after its key is preceded by a separator, whatever
    the container held before. *)
Lemma key_value_separator (k : pystr) (v : jvalue) o p i l f fs :
  (key k ;; value v) (mkJS o p i l (f :: fs))
  = Some (tt, mkJS (o ++ key_chunks p i l f k
                      ++ [py ","] ++ nlpad p i l ++ [dumps v])
                   p i l (false :: fs)).
Proof.
  repeat js_step. unfold value_chunks, sep. js_done.
Qed.

(** Opening an object writes the brace alone and leaves the flag of
    the enclosing container as it was: two objects opened one after the
    other in a fresh array have nothing between them. *)
Lemma objects_without_separator o p i l fs :
  (begin_obj ;; end_obj ;; begin_obj ;; end_obj) (mkJS o p i l (true :: fs))
  = Some (tt, mkJS (o ++ [py "{"] ++ close_chunks p i l (py "}")
                      ++ [py "{"] ++ close_chunks p i l (py "}"))
                   p i l (true :: fs)).
Proof. repeat js_step. js_done. Qed.

(** With no optional group enabled and at least one column, the
    [columns] line is the only child of its relation and carries the
    middle glyph; the columns hang under a continuation bar. *)
Lemma only_group_not_last (unicode_alnum : N -> bool) (conn : Conn) (args : Args)
      (prefix : pystr) (rel_oid : Z) (out : list pystr) :
  include_indexes args = false ->
  include_fkeys args = false ->
  include_triggers args = false ->
  fetch_columns conn rel_oid <> [] ->
  ascii_relation_children unicode_alnum conn args prefix rel_oid out
  = out ++ [prefix ++ GLYPH_MID ++ py "columns"]
        ++ leaf_lines (column_text unicode_alnum) (prefix ++ GLYPH_BAR)
                      (fetch_columns conn rel_oid).
Proof.
  intros Hi Hf Ht Hcols. rewrite ascii_relation_children_spec, enabled_groups_spec.
  rewrite Hi, Hf, Ht. destruct (fetch_columns conn rel_oid) as [|c cols];
    [congruence|].
  cbn [orb negb andb nonempty app lines_last]. unfold _branch, _child_prefix.
  rewrite app_nil_r, <- !app_assoc. reflexivity.
Qed.

(** With no incoming reference, [outgoing] and [incoming] both carry
    the closing glyph. *)
Lemma outgoing_last_without_incoming (g_prefix : pystr) (fko : list fkey_row) :
  exists below,
    fkeys_lines g_prefix fko []
    = [g_prefix ++ GLYPH_LAST ++ py "outgoing"] ++ below
        ++ [ g_prefix ++ GLYPH_LAST ++ py "incoming";
             g_prefix ++ GLYPH_GAP ++ GLYPH_LAST ++ py "(none)" ].
Proof.
  unfold fkeys_lines. cbn [nonempty negb]. unfold _branch.
  exists (if nonempty fko
          then leaf_lines fkey_out_text (_child_prefix g_prefix true) fko
          else [_child_prefix g_prefix true ++ GLYPH_LAST ++ py "(none)"]).
  rewrite <- !app_assoc. reflexivity.
Qed.

(** * Further properties *)

(** ** What the pattern of default expressions accepts *)

Section Matching.

Variable unicode_alnum : N -> bool.

(** The Unicode database counts no whitespace character as
    alphanumeric. *)
Hypothesis space_not_alnum :
  forall c, isspace c = true -> unicode_alnum c = false.

Lemma ident_start_not_space (c : N) : ident_start c = true -> isspace c = false.
Proof.
  unfold ident_start, isspace, ascii_lower, ascii_upper. intros H.
  apply not_true_is_false. intros Hs.
  repeat rewrite ?orb_true_iff, ?andb_true_iff, ?N.leb_le, ?N.eqb_eq in H;
      repeat rewrite ?orb_true_iff, ?andb_true_iff, ?N.leb_le, ?N.eqb_eq in Hs; lia.
Qed.

Lemma space_not_ident_rest (c : N) :
  isspace c = true -> ident_rest unicode_alnum c = false.
Proof.
  intros Hs. unfold ident_rest, is_word.
  destruct (c <? 128)%N eqn:Hlt.
  - unfold isspace in Hs. unfold ascii_lower, ascii_upper, ascii_digit.
    apply N.ltb_lt in Hlt. apply not_true_is_false. intros H.
    repeat rewrite ?orb_true_iff, ?andb_true_iff, ?N.leb_le, ?N.eqb_eq in H;
      repeat rewrite ?orb_true_iff, ?andb_true_iff, ?N.leb_le, ?N.eqb_eq in Hs; lia.
  - rewrite (space_not_alnum c Hs). cbn [orb].
    apply N.eqb_neq. intros ->. discriminate.
Qed.

(** A greedy run takes every character it can when what follows then
    matches. *)
Lemma star_all {A : Type} (p : N -> bool) (taken rest acc : pystr)
      (k : pystr -> pystr -> option A) (r : A) :
  forallb p taken = true ->
  match rest with [] => True | d :: _ => p d = false end ->
  k (acc ++ taken) rest = Some r ->
  star p acc (taken ++ rest) k = Some r.
Proof.
  revert acc. induction taken as [|c taken IH]; intros acc Htaken Hrest Hk.
  - rewrite app_nil_r in Hk. cbn [app].
    destruct rest as [|d rest]; cbn [star]; [exact Hk|]. now rewrite Hrest.
  - cbn [forallb] in Htaken. apply andb_true_iff in Htaken as [Hc Htaken].
    cbn [app star]. rewrite Hc, (IH (acc ++ [c]) Htaken Hrest).
    + reflexivity.
    + now rewrite <- app_assoc.
Qed.

(** A run fails when what follows fails wherever the run may stop. *)
Lemma star_none {A : Type} (p : N -> bool) (s acc : pystr)
      (k : pystr -> pystr -> option A) :
  (forall pre post, s = pre ++ post -> forallb p pre = true ->
                    k (acc ++ pre) post = None) ->
  star p acc s k = None.
Proof.
  revert acc. induction s as [|c s IH]; intros acc Hk.
  - cbn [star]. specialize (Hk [] [] eq_refl eq_refl). now rewrite app_nil_r in Hk.
  - assert (Hhere : k acc (c :: s) = None).
    { specialize (Hk [] (c :: s) eq_refl eq_refl). now rewrite app_nil_r in Hk. }
    cbn [star]. destruct (p c) eqn:Hc; [|exact Hhere].
    rewrite IH; [exact Hhere|].
    intros pre post -> Hpre. rewrite <- app_assoc.
    apply (Hk (c :: pre) post); [reflexivity|].
    cbn [forallb]. now rewrite Hc, Hpre.
Qed.

(** An identifier followed by whitespace and a parenthesis is not
    taken for a qualifier: no dot follows any part of it. *)
Lemma qualifier_none {A : Type} (fn ws rest : pystr) (k : pystr -> option A) :
  identifier unicode_alnum fn = true ->
  forallb isspace ws = true ->
  ident unicode_alnum (fn ++ ws ++ 40%N :: rest)
        (fun _ s2 => match s2 with
                     | 46%N :: s3 => k s3
                     | _ => None
                     end) = None.
Proof.
  intros Hfn Hws. destruct fn as [|c t]; [discriminate|].
  cbn [identifier] in Hfn. apply andb_true_iff in Hfn as [Hc Ht].
  cbn [app]. unfold ident. rewrite Hc.
  revert Ht. generalize [c]. induction t as [|d t IH]; intros acc Ht.
  - cbn [app]. destruct ws as [|w ws].
    + cbn [app star]. change (ident_rest unicode_alnum 40) with false. reflexivity.
    + cbn [forallb] in Hws. apply andb_true_iff in Hws as [Hw _].
      cbn [app star]. rewrite (space_not_ident_rest w Hw).
      destruct w as [|w]; [reflexivity|].
      destruct (Pos.eq_dec w 46) as [->|Hne]; [discriminate|].
      repeat (destruct w as [w|w|]; try reflexivity). congruence.
  - cbn [forallb] in Ht. apply andb_true_iff in Ht as [Hd Ht].
    cbn [app star]. rewrite Hd, (IH (acc ++ [d]) Ht).
    destruct d as [|d]; [reflexivity|].
    destruct (Pos.eq_dec d 46) as [->|Hne]; [discriminate|].
    repeat (destruct d as [d|d|]; try reflexivity). congruence.
Qed.

Lemma func_then_paren_accepts (fn ws rest : pystr) :
  identifier unicode_alnum fn = true ->
  forallb isspace ws = true ->
  func_then_paren unicode_alnum (fn ++ ws ++ 40%N :: rest) = Some fn.
Proof.
  intros Hfn Hws. destruct fn as [|c t]; [discriminate|].
  cbn [identifier] in Hfn. apply andb_true_iff in Hfn as [Hc Ht].
  unfold func_then_paren, ident. cbn [app]. rewrite Hc.
  apply star_all; [exact Ht| |].
  - destruct ws as [|w ws]; cbn [app].
    + reflexivity.
    + cbn [forallb] in Hws. apply andb_true_iff in Hws as [Hw _].
      now apply space_not_ident_rest.
  - apply star_all; [exact Hws|reflexivity|reflexivity].
Qed.

End Matching.

(** X1. A default expression made of optional whitespace, an
    identifier, optional whitespace and an opening parenthesis yields
    that identifier, whatever follows the parenthesis. *)
Theorem extract_accepts_call (unicode_alnum : N -> bool)
        (lead fn ws rest : pystr) :
  (forall c, isspace c = true -> unicode_alnum c = false) ->
  forallb isspace lead = true ->
  identifier unicode_alnum fn = true ->
  forallb isspace ws = true ->
  extract_default_func_name unicode_alnum (Some (lead ++ fn ++ ws ++ 40%N :: rest))
  = Some fn.
Proof.
  intros Hsp Hlead Hfn Hws. unfold extract_default_func_name.
  assert (Htruthy : truthy (Some (lead ++ fn ++ ws ++ 40%N :: rest)) = true).
  { destruct lead; [|reflexivity]. destruct fn; [discriminate|reflexivity]. }
  rewrite Htruthy. cbn [negb]. unfold FUNC_NAME_RE_match.
  apply star_all; [exact Hlead| |].
  - destruct fn as [|c t]; [discriminate|]. cbn [app identifier] in *.
    apply andb_true_iff in Hfn as [Hc _]. now apply ident_start_not_space.
  - rewrite (qualifier_none unicode_alnum Hsp fn ws rest _ Hfn Hws).
    now apply func_then_paren_accepts.
Qed.

Lemma extract_accepts_call_witness :
  extract_default_func_name (fun _ => false) (Some (py " now ()")) = Some (py "now").
Proof.
  exact (extract_accepts_call (fun _ => false) (py " ") (py "now") (py " ") (py ")")
                              (fun c _ => eq_refl) eq_refl eq_refl eq_refl).
Defined.

(** X2. With a qualifier in front, an identifier and a dot, the
    extraction yields the name after the dot and not the qualifier. *)
Theorem extract_accepts_qualified_call (unicode_alnum : N -> bool)
        (lead qual fn ws rest : pystr) :
  (forall c, isspace c = true -> unicode_alnum c = false) ->
  forallb isspace lead = true ->
  identifier unicode_alnum qual = true ->
  identifier unicode_alnum fn = true ->
  forallb isspace ws = true ->
  extract_default_func_name unicode_alnum
    (Some (lead ++ qual ++ 46%N :: fn ++ ws ++ 40%N :: rest))
  = Some fn.
Proof.
  intros Hsp Hlead Hq Hfn Hws. unfold extract_default_func_name.
  assert (Htruthy : truthy (Some (lead ++ qual ++ 46%N :: fn ++ ws ++ 40%N :: rest))
                    = true).
  { destruct lead; [|reflexivity]. destruct qual; [discriminate|reflexivity]. }
  rewrite Htruthy. cbn [negb]. unfold FUNC_NAME_RE_match.
  destruct qual as [|c t]; [discriminate|].
  cbn [identifier] in Hq. apply andb_true_iff in Hq as [Hc Ht].
  apply star_all; [exact Hlead| |].
  - cbn [app]. now apply ident_start_not_space.
  - cbn [app]. unfold ident at 1. rewrite Hc.
    rewrite (star_all (ident_rest unicode_alnum) t _ [c] _ fn Ht); try reflexivity.
    now apply func_then_paren_accepts.
Qed.

Lemma extract_accepts_qualified_call_witness :
  extract_default_func_name (fun _ => false)
                            (Some (py "pg_catalog.nextval('s'::regclass)"))
  = Some (py "nextval").
Proof.
  exact (extract_accepts_qualified_call (fun _ => false) [] (py "pg_catalog")
           (py "nextval") [] (py "'s'::regclass)")
           (fun c _ => eq_refl) eq_refl eq_refl eq_refl eq_refl).
Defined.

Lemma space_not_ident_start (c : N) : isspace c = true -> ident_start c = false.
Proof.
  intros Hs. destruct (ident_start c) eqn:Hc; [|reflexivity].
  apply ident_start_not_space in Hc. congruence.
Qed.

(** Where the leading run of whitespace may stop, an expression that
    does not go on with an identifier shows no identifier. *)
Lemma no_identifier_ahead (lead rest pre post : pystr) :
  forallb isspace lead = true ->
  match rest with
  | [] => True
  | d :: _ => isspace d = false /\ ident_start d = false
  end ->
  lead ++ rest = pre ++ post ->
  forallb isspace pre = true ->
  match post with [] => True | d :: _ => ident_start d = false end.
Proof.
  revert pre. induction lead as [|w lead IH]; intros pre Hlead Hrest Heq Hpre.
  - cbn [app] in Heq. destruct pre as [|e pre].
    + cbn [app] in Heq. subst post. destruct rest; [exact I|apply Hrest].
    + subst rest. cbn [app] in Hrest. cbn [forallb] in Hpre.
      apply andb_true_iff in Hpre as [He _]. destruct Hrest as [Hd _]. congruence.
  - cbn [forallb] in Hlead. apply andb_true_iff in Hlead as [Hw Hlead].
    destruct pre as [|e pre].
    + cbn [app] in Heq. subst post. cbn [app]. now apply space_not_ident_start.
    + cbn [app] in Heq. injection Heq as _ Heq. cbn [forallb] in Hpre.
      apply andb_true_iff in Hpre as [_ Hpre]. now apply (IH pre).
Qed.

(** X3. A default expression whose first character after optional
    whitespace does not start an identifier (a quote, a digit, a
    parenthesis, a sign), or that holds whitespace only, yields no
    function name. *)
Theorem extract_rejects_non_call (unicode_alnum : N -> bool) (lead rest : pystr) :
  forallb isspace lead = true ->
  match rest with
  | [] => True
  | d :: _ => isspace d = false /\ ident_start d = false
  end ->
  extract_default_func_name unicode_alnum (Some (lead ++ rest)) = None.
Proof.
  intros Hlead Hrest. unfold extract_default_func_name.
  destruct (negb (truthy (Some (lead ++ rest)))); [reflexivity|].
  unfold FUNC_NAME_RE_match. apply star_none. intros pre post Heq Hpre.
  pose proof (no_identifier_ahead lead rest pre post Hlead Hrest Heq Hpre) as Hpost.
  unfold func_then_paren, ident. destruct post as [|d post]; [reflexivity|].
  now rewrite Hpost.
Qed.

Lemma extract_rejects_non_call_witness :
  extract_default_func_name (fun _ => false) (Some (py " 'now'::text")) = None.
Proof.
  exact (extract_rejects_non_call (fun _ => false) (py " ") (py "'now'::text")
                                  eq_refl (conj eq_refl eq_refl)).
Defined.

(** X4. A function name the extraction returns stands in the
    expression after optional whitespace and at most one qualifier
    with its dot, and is followed by optional whitespace and an
    opening parenthesis. *)
Theorem extract_default_func_name_sound (unicode_alnum : N -> bool)
        (default_expr : option pystr) (fn : pystr) :
  extract_default_func_name unicode_alnum default_expr = Some fn ->
  identifier unicode_alnum fn = true
  /\ exists lead qual ws rest,
       default_expr = Some (lead ++ qual ++ fn ++ ws ++ 40%N :: rest)
       /\ forallb isspace lead = true
       /\ forallb isspace ws = true
       /\ (qual = []
           \/ exists q, qual = q ++ [46%N] /\ identifier unicode_alnum q = true).
Proof.
  unfold extract_default_func_name. intros H.
  destruct (negb (truthy default_expr)); [discriminate|].
  destruct default_expr as [e|]; [|discriminate].
  apply FUNC_NAME_RE_match_some in H as (Hfn & lead & qual & ws & rest & -> & H).
  split; [exact Hfn|]. exists lead, qual, ws, rest. split; [reflexivity|exact H].
Qed.

Lemma extract_default_func_name_sound_witness :
  identifier (fun _ => false) (py "now") = true
  /\ exists lead qual ws rest,
       Some (py "now()") = Some (lead ++ qual ++ py "now" ++ ws ++ 40%N :: rest)
       /\ forallb isspace lead = true
       /\ forallb isspace ws = true
       /\ (qual = []
           \/ exists q, qual = q ++ [46%N] /\ identifier (fun _ => false) q = true).
Proof.
  exact (extract_default_func_name_sound (fun _ => false) (Some (py "now()"))
                                         (py "now") eq_refl).
Defined.

(** ** Where the text renderer puts the closing glyph *)

Lemma lines_last_snoc {A : Type} (emit : bool -> A -> list pystr)
      (rows : list A) (x : A) :
  lines_last emit (rows ++ [x]) = flat_map (emit false) rows ++ emit true x.
Proof.
  induction rows as [|y rows IH]; [reflexivity|].
  cbn [app flat_map]. rewrite <- app_assoc, <- IH.
  destruct rows; reflexivity.
Qed.


(** X6. The loop over the enabled optional groups of a relation gives
    the closing glyph to the final enabled group and the middle glyph
    to every group before it, and hangs each group's lines under the
    matching continuation. *)
Theorem ascii_groups_glyphs (prefix : pystr) (groups : list gdata) (g : gdata)
        (out : list pystr) :
  ascii_groups prefix (groups ++ [g]) out
  = out
      ++ flat_map (fun h => (prefix ++ GLYPH_MID ++ gname h)
                              :: ascii_group_body (prefix ++ GLYPH_BAR) h [])
                  groups
      ++ (prefix ++ GLYPH_LAST ++ gname g)
           :: ascii_group_body (prefix ++ GLYPH_GAP) g [].
Proof.
  rewrite ascii_groups_spec, lines_last_snoc. f_equal. f_equal.
  - induction groups as [|h groups IH]; [reflexivity|].
    cbn [flat_map]. rewrite IH. unfold group_block, _branch, _child_prefix.
    now rewrite <- app_assoc.
  - unfold group_block, _branch, _child_prefix. now rewrite <- app_assoc.
Qed.

Section AsciiSchema.

Variable unicode_alnum : N -> bool.
Variable conn : Conn.
Variable schema : pystr.
Variable args : Args.

Lemma ascii_relation_children_app (prefix : pystr) (rel_oid : Z) (out : list pystr) :
  ascii_relation_children unicode_alnum conn args prefix rel_oid out
  = out ++ ascii_relation_children unicode_alnum conn args prefix rel_oid [].
Proof. now rewrite !ascii_relation_children_spec. Qed.

Lemma ascii_relation_step (idx_top top_children : Z) (out : list pystr) (idx : Z)
      (row : table_row) :
  ascii_relation unicode_alnum conn schema args idx_top top_children (out, idx) row
  = (out ++ relation_lines unicode_alnum conn schema args
                           (idx_top + idx =? top_children - 1) row,
     idx + 1).
Proof.
  destruct row as [tname relkind]. unfold ascii_relation, relation_lines.
  cbn [fst snd]. destruct (get_rel_oid conn schema tname) as [rel_oid|].
  - rewrite ascii_relation_children_app. unfold print.
    rewrite <- app_assoc. reflexivity.
  - unfold print, _branch at 2. rewrite <- !app_assoc. reflexivity.
Qed.

Lemma fold_ascii_relation (idx_top top_children : Z) (rows : list table_row) :
  forall idx out,
    idx_top + idx + len rows = top_children ->
    fold_left (ascii_relation unicode_alnum conn schema args idx_top top_children)
              rows (out, idx)
    = (out ++ lines_last (relation_lines unicode_alnum conn schema args) rows,
       idx + len rows).
Proof.
  induction rows as [|row rest IH]; intros idx out Hn.
  - cbn. rewrite app_nil_r. f_equal. unfold len. cbn. lia.
  - cbn [fold_left]. rewrite ascii_relation_step. rewrite len_cons in Hn.
    destruct rest as [|row2 rest'].
    + cbn [fold_left lines_last]. unfold len in *. cbn in *.
      replace (idx_top + idx =? top_children - 1) with true
        by (symmetry; apply Z.eqb_eq; lia).
      f_equal.
    + rewrite (IH (idx + 1)) by lia.
      pose proof (len_nonneg rest'). rewrite !len_cons in Hn.
      replace (idx_top + idx =? top_children - 1) with false
        by (symmetry; apply Z.eqb_neq; lia).
      cbn [lines_last]. rewrite <- app_assoc. f_equal. rewrite !len_cons. lia.
Qed.

(** The text of a schema: its name and then the lines of its
    children. *)
Lemma print_schema_tree_ascii_spec (out : list pystr) :
  print_schema_tree_ascii unicode_alnum conn schema args out
  = out ++ schema :: schema_children_lines unicode_alnum conn schema args.
Proof.
  unfold print_schema_tree_ascii, schema_children_lines, functions_lines.
  destruct (include_funcs args).
  - rewrite fold_ascii_relation by lia. cbn [fst].
    rewrite print_leaves_spec. unfold print.
    assert (Hlast : (if len (iter_tables conn schema args) =? 0
                     then 0 =? len (iter_tables conn schema args) + 1 - 1
                     else false)
                    = negb (nonempty (iter_tables conn schema args))).
    { destruct (iter_tables conn schema args) as [|r rows]; [reflexivity|].
      rewrite len_cons. pose proof (len_nonneg rows).
      replace (1 + len rows =? 0) with false by (symmetry; apply Z.eqb_neq; lia).
      reflexivity. }
    rewrite Hlast, <- !app_assoc. reflexivity.
  - rewrite fold_ascii_relation by lia. cbn [fst]. unfold print.
    rewrite <- !app_assoc. reflexivity.
Qed.

End AsciiSchema.

(** X7. Among the children of a schema the final relation carries the
    closing glyph and every relation before it the middle glyph; the
    [functions] line, when printed, comes first and carries the
    middle glyph as soon as there is a relation. *)
Theorem schema_children_glyphs (unicode_alnum : N -> bool) (conn : Conn)
        (schema : pystr) (args : Args) (rows : list table_row) (x : table_row)
        (out : list pystr) :
  iter_tables conn schema args = rows ++ [x] ->
  print_schema_tree_ascii unicode_alnum conn schema args out
  = out ++ [schema]
        ++ (if include_funcs args
            then (GLYPH_MID ++ py "functions")
                   :: leaf_lines function_text GLYPH_BAR (iter_functions conn schema)
            else [])
        ++ flat_map (relation_lines unicode_alnum conn schema args false) rows
        ++ relation_lines unicode_alnum conn schema args true x.
Proof.
  intros Htables. rewrite print_schema_tree_ascii_spec.
  unfold schema_children_lines, functions_lines. rewrite Htables, lines_last_snoc.
  assert (Hne : nonempty (rows ++ [x]) = true) by (destruct rows; reflexivity).
  rewrite Hne. cbn [negb app]. reflexivity.
Qed.

Lemma schema_children_glyphs_witness :
  print_schema_tree_ascii (fun _ => false) conn_pair (py "app") args_none []
  = [ py "app";
      GLYPH_MID ++ py "a [table]";
      GLYPH_BAR ++ GLYPH_MID ++ py "columns";
      GLYPH_BAR ++ GLYPH_BAR ++ GLYPH_LAST ++ py "id: integer NOT NULL";
      GLYPH_LAST ++ py "b [table]";
      GLYPH_GAP ++ GLYPH_LAST ++ py "columns" ].
Proof.
  exact (schema_children_glyphs (fun _ => false) conn_pair (py "app") args_none
                                [(py "a", py "r")] (py "b", py "r") [] eq_refl).
Defined.

(** X9. The text branch of [main] prints the schemas in the order
    given, with exactly one empty line between two of them and none
    before the first or after the last; with no schema it prints
    nothing. *)
Theorem main_ascii_blank_lines (unicode_alnum : N -> bool) (conn : Conn)
        (args : Args) (schemas : list pystr) (out : list pystr) :
  main_ascii unicode_alnum conn args schemas out
  = out ++ blank_separated
             (map (fun s => s :: schema_children_lines unicode_alnum conn s args)
                  schemas).
Proof.
  unfold main_ascii, enumerate.
  assert (Hrest : forall l i o,
             0 < i ->
             fold_left
               (fun out (ks : Z * pystr) =>
                  let '(s_idx, schema) := ks in
                  let out := if s_idx >? 0 then print [] out else out in
                  print_schema_tree_ascii unicode_alnum conn schema args out)
               (enumerate_from i l) o
             = o ++ flat_map
                      (fun s => [] :: s :: schema_children_lines unicode_alnum conn s args)
                      l).
  { induction l as [|s l IH]; intros i o Hi.
    - cbn. now rewrite app_nil_r.
    - cbn [enumerate_from fold_left flat_map].
      replace (i >? 0) with true by (symmetry; apply Z.gtb_lt; lia).
      rewrite IH by lia. rewrite print_schema_tree_ascii_spec. unfold print.
      rewrite <- !app_assoc. reflexivity. }
  assert (Hblank : forall (b : list pystr) (l : list pystr)
                          (f : pystr -> list pystr),
             blank_separated (b :: map f l)
             = b ++ flat_map (fun s => [] :: f s) l).
  { intros b l f. revert b. induction l as [|s l IH]; intros b.
    - cbn. now rewrite app_nil_r.
    - cbn [map flat_map]. change (blank_separated (b :: f s :: map f l))
        with (b ++ [[]] ++ blank_separated (f s :: map f l)).
      rewrite IH. reflexivity. }
  destruct schemas as [|s schemas].
  - cbn. now rewrite app_nil_r.
  - cbn [enumerate_from fold_left map]. change (0 >? 0) with false. cbn iota.
    rewrite Hrest by lia. rewrite print_schema_tree_ascii_spec.
    rewrite (Hblank _ schemas
               (fun s0 => s0 :: schema_children_lines unicode_alnum conn s0 args)).
    rewrite <- !app_assoc. reflexivity.
Qed.

(** X8. A schema with no relation: the text is the schema's name,
    followed by the [functions] group with the closing glyph when
    functions are printed; the document object closes with an empty
    [relations] array. *)
Theorem schema_without_relations (unicode_alnum : N -> bool) (conn : Conn)
        (schema : pystr) (args : Args) :
  iter_tables conn schema args = [] ->
  (forall out,
      print_schema_tree_ascii unicode_alnum conn schema args out
      = out ++ [schema]
            ++ (if include_funcs args
                then (GLYPH_LAST ++ py "functions")
                       :: leaf_lines function_text GLYPH_GAP
                                     (iter_functions conn schema)
                else []))
  /\ (forall o p i l fs,
         print_schema_tree_json unicode_alnum conn schema args (mkJS o p i l fs)
         = Some (tt,
                 mkJS (o ++ [py "{"]
                         ++ key_chunks p i (l + 1) true (py "name")
                         ++ value_chunks p i (l + 1) false (JScalar (JStr schema))
                         ++ (if include_funcs args
                             then array_chunks p i (l + 1) false (py "functions")
                                    (map function_entry (iter_functions conn schema))
                             else [])
                         ++ key_chunks p i (l + 1) false (py "relations")
                         ++ [py "["] ++ close_chunks p i (l + 1) (py "]")
                         ++ close_chunks p i l (py "}"))
                      p i l fs)).
Proof.
  intros Htables. split.
  - intros o. rewrite print_schema_tree_ascii_spec.
    unfold schema_children_lines, functions_lines. rewrite Htables.
    cbn [lines_last nonempty negb]. rewrite app_nil_r. reflexivity.
  - intros o p i l fs. rewrite print_schema_tree_json_run.
    unfold schema_chunks. rewrite Htables. cbn [flat_map app]. reflexivity.
Qed.

Lemma schema_without_relations_witness :
  print_schema_tree_ascii (fun _ => false) conn_users (py "audit") args_none
                          [py "app"]
  = [py "app"; py "audit"].
Proof.
  exact (proj1 (schema_without_relations (fun _ => false) conn_users (py "audit")
                                         args_none eq_refl)
               [py "app"]).
Defined.

(** ** The document writer: what returns and what raises *)

(** X10. [print_schema_tree_json] returns on every catalog and from
    every state of the stream, also with no container open; it only
    appends to what was written, and it leaves the depth and the stack
    of flags as it found them, so that every container it opened is
    closed. *)
Theorem print_schema_tree_json_returns (unicode_alnum : N -> bool) (conn : Conn)
        (schema : pystr) (args : Args) (st : JsonStream) :
  exists st',
    print_schema_tree_json unicode_alnum conn schema args st = Some (tt, st')
    /\ out st' = out st ++ schema_chunks unicode_alnum conn args schema
                                         (pretty st) (indent st) (level st)
    /\ pretty st' = pretty st
    /\ indent st' = indent st
    /\ level st' = level st
    /\ first_stack st' = first_stack st.
Proof.
  destruct st as [o p i l fs]. eexists. split.
  - apply print_schema_tree_json_run.
  - cbn. repeat split.
Qed.

Lemma for_each_schema_run (unicode_alnum : N -> bool) (conn : Conn) (args : Args)
      (schemas : list pystr) o p i l fs :
  for_each schemas
           (fun schema => print_schema_tree_json unicode_alnum conn schema args)
           (mkJS o p i l fs)
  = Some (tt, mkJS (o ++ flat_map
                           (fun s => schema_chunks unicode_alnum conn args s p i l)
                           schemas)
                   p i l fs).
Proof.
  revert o. induction schemas as [|s schemas IH]; intros o.
  - cbn. now rewrite app_nil_r.
  - cbn [for_each flat_map].
    rewrite (bind_run _ _ _ _ _ (print_schema_tree_json_run _ _ _ _ _ _ _ _ _)).
    rewrite IH, <- app_assoc. reflexivity.
Qed.

(** The document branch of [main], from a fresh stream. *)
Lemma main_json_run (unicode_alnum : N -> bool) (conn : Conn) (args : Args)
      (schemas : list pystr) (p : bool) (o : list pystr) :
  main_json unicode_alnum conn args schemas p (JsonStream_init o p 2)
  = Some (tt,
          mkJS (o ++ [py "{"]
                  ++ key_chunks p 2 1 true (py "schemas") ++ [py "["]
                  ++ flat_map (fun s => schema_chunks unicode_alnum conn args s p 2 2)
                              schemas
                  ++ close_chunks p 2 1 (py "]")
                  ++ close_chunks p 2 0 (py "}")
                  ++ (if p then [[10%N]] else []))
               p 2 0 []).
Proof.
  unfold main_json, JsonStream_init. repeat js_step.
  rewrite (bind_run _ _ _ _ _ (for_each_schema_run _ _ _ _ _ _ _ _ _)).
  repeat js_step. destruct p.
  - unfold write. cbn [out pretty indent level first_stack].
    rewrite <- !app_assoc. reflexivity.
  - unfold ret. rewrite app_nil_r, <- !app_assoc. reflexivity.
Qed.

(** X11. The document branch of [main] returns on every catalog and
    every list of schemas, from a fresh stream: it writes the root
    object with the [schemas] array, the schema objects one after the
    other with nothing between them, closes both containers, ends with
    a newline in pretty mode, and leaves depth 0 and no container
    open. *)
Theorem main_json_returns (unicode_alnum : N -> bool) (conn : Conn) (args : Args)
        (schemas : list pystr) (p : bool) (o : list pystr) :
  exists st,
    main_json unicode_alnum conn args schemas p (JsonStream_init o p 2)
    = Some (tt, st)
    /\ out st
       = o ++ [py "{"]
           ++ key_chunks p 2 1 true (py "schemas") ++ [py "["]
           ++ flat_map (fun s => schema_chunks unicode_alnum conn args s p 2 2)
                       schemas
           ++ close_chunks p 2 1 (py "]")
           ++ close_chunks p 2 0 (py "}")
           ++ (if p then [[10%N]] else [])
    /\ level st = 0
    /\ first_stack st = [].
Proof.
  eexists. split; [apply main_json_run|]. cbn [out level first_stack].
  repeat split.
Qed.

(** X12. [end_obj] and [end_array] raise exactly when no container is
    open; with a container open they return. *)
Theorem end_without_open_container (st : JsonStream) :
  (end_obj st = None <-> first_stack st = [])
  /\ (end_array st = None <-> first_stack st = []).
Proof.
  destruct st as [o p i l fs].
  unfold end_obj, end_array, bind, add_level, _nl, _pad, write, ret, pop_first.
  destruct p, fs; cbn [out pretty indent level first_stack];
    (split; split; intros H; (reflexivity || discriminate)).
Qed.

(** ** Separators in arrays of items *)

Lemma pystr_eqb_false (a b : pystr) : a <> b -> pystr_eqb a b = false.
Proof.
  intros H. unfold pystr_eqb. destruct (list_eq_dec N.eq_dec a b); congruence.
Qed.

Lemma pystr_eqb_eq (a b : pystr) : pystr_eqb a b = true <-> a = b.
Proof.
  unfold pystr_eqb. destruct (list_eq_dec N.eq_dec a b); split; congruence.
Qed.

Lemma separators_app (a b : list pystr) :
  separators (a ++ b) = (separators a + separators b)%nat.
Proof. unfold separators. now rewrite filter_app, length_app. Qed.

Lemma separators_nlpad (p : bool) (i l : Z) : separators (nlpad p i l) = 0%nat.
Proof.
  unfold nlpad, separators. destruct p; [|reflexivity].
  cbn [filter]. rewrite (pystr_eqb_false (py ",") [10%N]) by discriminate.
  rewrite pystr_eqb_false; [reflexivity|].
  destruct (Z.to_nat (l * i)); cbn; discriminate.
Qed.

Lemma separators_dumps (v : jvalue) : separators [dumps v] = 0%nat.
Proof.
  unfold separators. cbn [filter]. rewrite pystr_eqb_false; [reflexivity|].
  destruct v as [[s|[|]|]|d]; cbn; discriminate.
Qed.

Lemma separators_items (p : bool) (i l : Z) (first : bool) (vs : list jvalue) :
  separators (items_chunks p i l first vs)
  = ((if first then 0 else if nonempty vs then 1 else 0)
     + (List.length vs - 1))%nat.
Proof.
  revert first. induction vs as [|v vs IH]; intros first.
  - destruct first; reflexivity.
  - cbn [items_chunks]. unfold value_chunks.
    rewrite !separators_app, separators_nlpad, separators_dumps, IH.
    destruct first, vs; cbn; lia.
Qed.

(** X13. An array filled by [item] calls (columns, indexes, foreign
    keys of one direction, triggers, functions) is written as its key,
    the opening bracket, the items and the closing bracket, with one
    separator between two items: the number of rows less one, and none
    for an empty array. *)
Theorem item_array_separators {A : Type} (k : pystr) (entry : A -> jvalue)
        (rows : list A) o p i l f fs :
  (key k ;; begin_array ;;
   for_each rows (fun row => item (entry row)) ;; end_array)
    (mkJS o p i l (f :: fs))
  = Some (tt, mkJS (o ++ key_chunks p i l f k ++ [py "["]
                      ++ items_chunks p i (l + 1) true (map entry rows)
                      ++ close_chunks p i l (py "]"))
                   p i l (false :: fs))
  /\ separators (items_chunks p i (l + 1) true (map entry rows))
     = (List.length rows - 1)%nat.
Proof.
  split.
  - rewrite keyed_array_run. reflexivity.
  - rewrite separators_items, length_map. reflexivity.
Qed.

(** ** Which schemas and relations are walked *)

(** X14. Without [--schema-regex], or with an absent or empty
    [--schema], the schema iterator never raises: it yields the rows of
    the cursor in order, all of them when [--schema] is absent or
    empty, and otherwise those equal to [--schema]. *)
Theorem iter_schemas_without_pattern (re_search : pystr -> pystr -> option bool)
        (schemas_cur : bool -> list pystr) (a : SchemaArgs) :
  schema_regex a = false \/ truthy (args_schema a) = false ->
  iter_schemas re_search schemas_cur a
  = Some (filter (fun nspname =>
                    match args_schema a with
                    | Some (c :: s) => pystr_eqb nspname (c :: s)
                    | _ => true
                    end)
                 (schemas_cur (include_all_schemas a)))
  /\ (forall name names nspname,
         args_schema a = Some name -> name <> [] ->
         iter_schemas re_search schemas_cur a = Some names ->
         In nspname names -> nspname = name).
Proof.
  intros Hmode.
  assert (Hrows : forall rows,
             iter_schemas_rows re_search a rows
             = Some (filter (fun nspname =>
                               match args_schema a with
                               | Some (c :: s) => pystr_eqb nspname (c :: s)
                               | _ => true
                               end) rows)).
  { induction rows as [|n rows IH]; [reflexivity|].
    cbn [iter_schemas_rows filter]. rewrite IH.
    destruct Hmode as [Hexact | Hnone].
    - rewrite Hexact. destruct (args_schema a) as [[|c s]|]; cbn [truthy andb];
        try reflexivity.
      destruct (pystr_eqb n (c :: s)); reflexivity.
    - rewrite Hnone. cbn [andb].
      destruct (args_schema a) as [[|c s]|]; try discriminate;
        destruct (schema_regex a); reflexivity. }
  split; [apply Hrows|].
  intros name names nspname Hname Hne Hnames Hin.
  unfold iter_schemas in Hnames. rewrite Hrows, Hname in Hnames.
  destruct name as [|c s]; [congruence|].
  injection Hnames as <-. apply filter_In in Hin as [_ Heq].
  now apply pystr_eqb_eq.
Qed.

Lemma iter_schemas_without_pattern_witness :
  iter_schemas (fun _ _ => None)
               (fun _ => [py "app"; py "audit"; py "public"])
               (mkSchemaArgs false false (Some (py "audit")))
  = Some [py "audit"].
Proof.
  exact (proj1 (iter_schemas_without_pattern
                  (fun _ _ => None)
                  (fun _ => [py "app"; py "audit"; py "public"])
                  (mkSchemaArgs false false (Some (py "audit")))
                  (or_introl eq_refl))).
Defined.

(** X15. The relation query always asks for ordinary and partitioned
    tables, and each of [--include-views], [--include-matviews] and
    [--include-foreign] adds its own kind, in the order v, m, f. *)
Theorem iter_tables_kinds (conn : Conn) (schema : pystr) (args : Args) :
  iter_tables conn schema args
  = rows_tables conn schema
      (py "'r','p'"
       ++ (if include_views args then py ",'v'" else [])
       ++ (if include_matviews args then py ",'m'" else [])
       ++ (if include_foreign args then py ",'f'" else [])).
Proof.
  unfold iter_tables, q_tables_kinds.
  destruct (include_views args), (include_matviews args), (include_foreign args);
    reflexivity.
Qed.

(** ** Lines and characters that are never written *)

Lemma lines_last_Forall {A : Type} (P : pystr -> Prop)
      (emit : bool -> A -> list pystr) (rows : list A) :
  (forall b x, Forall P (emit b x)) -> Forall P (lines_last emit rows).
Proof.
  intros Hemit. induction rows as [|x rows IH]; [constructor|].
  cbn [lines_last]. destruct rows as [|y rows]; [apply Hemit|].
  apply Forall_app. split; [apply Hemit | exact IH].
Qed.

Lemma _branch_nonempty (prefix : pystr) (b : bool) (t : pystr) :
  _branch prefix b ++ t <> [].
Proof.
  unfold _branch. destruct prefix; destruct b; cbn; discriminate.
Qed.

Lemma leaf_lines_nonempty {A : Type} (text : A -> pystr) (prefix : pystr)
      (rows : list A) :
  Forall (fun l => l <> []) (leaf_lines text prefix rows).
Proof.
  unfold leaf_lines. apply lines_last_Forall. intros b x.
  constructor; [apply _branch_nonempty | constructor].
Qed.

Lemma glyph_line_nonempty (prefix glyph t : pystr) :
  glyph <> [] -> prefix ++ glyph ++ t <> [].
Proof. destruct prefix, glyph; cbn; congruence. Qed.

Lemma ascii_group_body_nonempty (g_prefix : pystr) (g : gdata) :
  Forall (fun l => l <> []) (ascii_group_body g_prefix g []).
Proof.
  destruct g as [idxs|fko fki|trgs].
  - cbn [ascii_group_body]. rewrite print_leaves_spec. apply leaf_lines_nonempty.
  - rewrite ascii_group_body_fkeys. cbn [app]. unfold fkeys_lines.
    repeat (apply Forall_app; split);
      repeat match goal with
             | |- Forall _ (if ?c then _ else _) => destruct c
             | |- Forall _ (leaf_lines _ _ _) => apply leaf_lines_nonempty
             | |- Forall _ [_] => constructor; [|constructor]
             | |- _branch _ _ ++ _ <> [] => apply _branch_nonempty
             | |- _ ++ GLYPH_LAST ++ _ <> [] =>
                 apply glyph_line_nonempty; discriminate
             | |- _child_prefix ?p ?b ++ ?x <> [] =>
                 unfold _child_prefix; destruct p, b; cbn; discriminate
             | |- _ ++ GLYPH_GAP ++ _ <> [] =>
                 apply glyph_line_nonempty; discriminate
             end.
  - cbn [ascii_group_body]. destruct (nonempty trgs).
    + rewrite print_leaves_spec. apply leaf_lines_nonempty.
    + constructor; [apply _branch_nonempty | constructor].
Qed.

(** X16. No string the text renderer hands to [print] under a
    schema's name is empty, whatever the catalog holds. *)
Theorem schema_children_lines_nonempty (unicode_alnum : N -> bool) (conn : Conn)
        (schema : pystr) (args : Args) (out : list pystr) :
  exists lines,
    print_schema_tree_ascii unicode_alnum conn schema args out
    = out ++ schema :: lines
    /\ Forall (fun l => l <> []) lines.
Proof.
  exists (schema_children_lines unicode_alnum conn schema args).
  split; [apply print_schema_tree_ascii_spec|].
  unfold schema_children_lines, functions_lines. apply Forall_app. split.
  - destruct (include_funcs args); [|constructor].
    constructor; [apply _branch_nonempty | apply leaf_lines_nonempty].
  - apply lines_last_Forall. intros b row. unfold relation_lines.
    constructor; [apply _branch_nonempty|].
    destruct (get_rel_oid conn schema (fst row)) as [rel_oid|].
    + rewrite ascii_relation_children_spec. cbn [app].
      constructor; [apply _branch_nonempty|].
      apply Forall_app. split; [apply leaf_lines_nonempty|].
      apply lines_last_Forall. intros b' g. unfold group_block.
      constructor; [apply _branch_nonempty | apply ascii_group_body_nonempty].
    + constructor; [|constructor].
      unfold _child_prefix. destruct b; cbn; discriminate.
Qed.

(** A string without control characters, and a sink holding only such
    strings. *)
Definition printable (s : pystr) : Prop := Forall (fun c => (32 <= c)%N) s.

Definition all_printable (chunks : list pystr) : Prop := Forall printable chunks.

Lemma hex_digit_printable (n : N) : (32 <= hex_digit n)%N.
Proof. unfold hex_digit. destruct (N.ltb_spec n 10); lia. Qed.

Lemma escape_char_printable (c : N) : printable (escape_char c).
Proof.
  unfold escape_char, printable.
  repeat match goal with
         | |- context [(?a =? ?b)%N] => destruct (N.eqb_spec a b)
         | |- context [(?a <? ?b)%N] => destruct (N.ltb_spec a b)
         end;
    repeat constructor; try apply hex_digit_printable; lia.
Qed.

Lemma dumps_str_printable (s : pystr) : printable (dumps_str s).
Proof.
  unfold dumps_str, printable. apply Forall_app. split.
  - repeat constructor. lia.
  - apply Forall_app. split.
    + induction s as [|c s IH]; [constructor|].
      cbn [flat_map]. apply Forall_app. split; [apply escape_char_printable|exact IH].
    + repeat constructor. lia.
Qed.

Lemma py_printable_literal (s : pystr) :
  forallb (fun c => (32 <=? c)%N) s = true -> printable s.
Proof.
  intros H. apply Forall_forall. intros c Hc.
  rewrite forallb_forall in H. apply N.leb_le. now apply H.
Qed.

Lemma dumps_scalar_printable (v : jscalar) : printable (dumps_scalar v).
Proof.
  destruct v as [s|[|]|]; cbn [dumps_scalar];
    [apply dumps_str_printable | | | ]; now apply py_printable_literal.
Qed.

Lemma join_printable (sep : pystr) (parts : list pystr) :
  printable sep -> Forall printable parts -> printable (join sep parts).
Proof.
  intros Hsep Hparts. induction Hparts as [|x parts Hx Hparts IH]; [constructor|].
  cbn [join]. destruct parts as [|y parts]; [exact Hx|].
  apply Forall_app. split; [exact Hx|]. apply Forall_app. split; assumption.
Qed.

Lemma dumps_printable (v : jvalue) : printable (dumps v).
Proof.
  destruct v as [x|d]; cbn [dumps]; [apply dumps_scalar_printable|].
  apply Forall_app. split; [now apply py_printable_literal|].
  apply Forall_app. split; [|now apply py_printable_literal].
  apply join_printable; [now apply py_printable_literal|].
  apply Forall_forall. intros x Hx. apply in_map_iff in Hx as (kv & <- & _).
  apply Forall_app. split; [apply dumps_str_printable|].
  apply Forall_app. split; [now apply py_printable_literal|].
  apply dumps_scalar_printable.
Qed.

Lemma key_chunks_printable (i l : Z) (first : bool) (k : pystr) :
  all_printable (key_chunks false i l first k).
Proof.
  unfold key_chunks, sep, nlpad, colon, all_printable. destruct first; cbn [app];
    repeat first [apply dumps_str_printable | constructor]; cbv; discriminate.
Qed.

Lemma value_chunks_printable (i l : Z) (first : bool) (v : jvalue) :
  all_printable (value_chunks false i l first v).
Proof.
  unfold value_chunks, sep, nlpad, all_printable. destruct first; cbn [app];
    repeat first [apply dumps_printable | constructor]; cbv; discriminate.
Qed.

Lemma items_chunks_printable (i l : Z) (first : bool) (vs : list jvalue) :
  all_printable (items_chunks false i l first vs).
Proof.
  revert first. induction vs as [|v vs IH]; intros first; [constructor|].
  cbn [items_chunks]. apply Forall_app. split;
    [apply value_chunks_printable | apply IH].
Qed.

Lemma close_chunks_printable (i l : Z) (bracket : pystr) :
  printable bracket -> all_printable (close_chunks false i l bracket).
Proof. intros H. unfold close_chunks, nlpad. cbn [app]. now repeat constructor. Qed.

Lemma bracket_printable (b : pystr) :
  forallb (fun c => (32 <=? c)%N) b = true -> all_printable [b].
Proof. intros H. constructor; [now apply py_printable_literal | constructor]. Qed.

Lemma all_printable_app (a b : list pystr) :
  all_printable a -> all_printable b -> all_printable (a ++ b).
Proof. intros Ha Hb. apply Forall_app. now split. Qed.

Lemma all_printable_nil : all_printable [].
Proof. constructor. Qed.

Lemma all_printable_flat_map {A : Type} (f : A -> list pystr) (l : list A) :
  (forall x, all_printable (f x)) -> all_printable (flat_map f l).
Proof.
  intros Hf. induction l as [|x l IH]; [constructor|].
  cbn [flat_map]. now apply all_printable_app.
Qed.

Ltac printable_base :=
  first [ apply key_chunks_printable
        | apply value_chunks_printable
        | apply items_chunks_printable
        | apply all_printable_nil
        | now apply bracket_printable
        | (apply close_chunks_printable; now apply py_printable_literal) ].

Lemma array_chunks_printable (i l : Z) (first : bool) (k : pystr)
      (vs : list jvalue) :
  all_printable (array_chunks false i l first k vs).
Proof.
  unfold array_chunks. repeat first [printable_base | apply all_printable_app].
Qed.

Lemma fkeys_chunks_printable (i l : Z) (first : bool) (fko fki : list fkey_row) :
  all_printable (fkeys_chunks false i l first fko fki).
Proof.
  unfold fkeys_chunks.
  repeat first [apply array_chunks_printable | printable_base
               | apply all_printable_app].
Qed.

Lemma relation_chunks_printable (unicode_alnum : N -> bool) (conn : Conn)
      (args : Args) (schema : pystr) (i l : Z) (row : table_row) :
  all_printable (relation_chunks unicode_alnum conn args schema false i l row).
Proof.
  unfold relation_chunks, relation_head_chunks, relation_groups_chunks.
  destruct (get_rel_oid conn schema (fst row));
    destruct (include_indexes args), (include_fkeys args), (include_triggers args);
    repeat first [apply array_chunks_printable | apply fkeys_chunks_printable
                 | printable_base | apply all_printable_app].
Qed.

Lemma schema_chunks_printable (unicode_alnum : N -> bool) (conn : Conn)
      (args : Args) (schema : pystr) (i l : Z) :
  all_printable (schema_chunks unicode_alnum conn args schema false i l).
Proof.
  unfold schema_chunks.
  destruct (include_funcs args);
    repeat first [apply array_chunks_printable
                 | (apply all_printable_flat_map; intros;
                    apply relation_chunks_printable)
                 | printable_base | apply all_printable_app].
Qed.

(** X17. In compact mode the document that [main] writes holds no
    code point below U+0020, so no line feed, carriage return or tab,
    whatever texts the catalog returns: the writer adds none and the
    strings are escaped. *)
Theorem compact_document_no_control (unicode_alnum : N -> bool) (conn : Conn)
        (args : Args) (schemas : list pystr) :
  exists st,
    main_json unicode_alnum conn args schemas false (JsonStream_init [] false 2)
    = Some (tt, st)
    /\ Forall (fun c => (32 <= c)%N) (written (out st)).
Proof.
  eexists. split; [apply main_json_run|]. cbn [out].
  assert (Hconcat : forall chunks, all_printable chunks -> printable (written chunks)).
  { intros chunks H. unfold written. induction H as [|ch chunks Hch _ IH];
      [constructor|]. cbn [List.concat]. apply Forall_app. now split. }
  apply Hconcat.
  repeat first [ (apply all_printable_flat_map; intros;
                  apply schema_chunks_printable)
               | printable_base | apply all_printable_app ].
Qed.

(** ** Counting the branch lines of a schema *)

(** [line] goes on from [prefix]. *)
Definition extends (prefix line : pystr) : Prop := exists x, line = prefix ++ x.

Lemma starts_with_extends (prefix line : pystr) :
  extends prefix line -> starts_with prefix line = true.
Proof.
  intros [x ->]. induction prefix as [|c prefix IH]; [reflexivity|].
  cbn [app starts_with]. now rewrite N.eqb_refl, IH.
Qed.

Lemma extends_branch (p q : pystr) (b : bool) (t : pystr) :
  extends p (_branch (p ++ q) b ++ t).
Proof. unfold _branch. eexists. rewrite <- !app_assoc. reflexivity. Qed.

Lemma leaf_lines_extend {A : Type} (text : A -> pystr) (p q : pystr) (rows : list A) :
  Forall (extends p) (leaf_lines text (p ++ q) rows).
Proof.
  unfold leaf_lines. apply lines_last_Forall. intros b x.
  constructor; [apply extends_branch | constructor].
Qed.

Lemma ascii_group_body_extends (p q : pystr) (g : gdata) :
  Forall (extends p) (ascii_group_body (p ++ q) g []).
Proof.
  destruct g as [idxs|fko fki|trgs].
  - cbn [ascii_group_body]. rewrite print_leaves_spec. apply leaf_lines_extend.
  - rewrite ascii_group_body_fkeys. cbn [app]. unfold fkeys_lines, _child_prefix.
    repeat (apply Forall_app; split);
      repeat match goal with
             | |- Forall _ (if ?c then _ else _) => destruct c
             | |- Forall _ (leaf_lines _ ((p ++ q) ++ ?r) _) =>
                 rewrite <- (app_assoc p q r); apply leaf_lines_extend
             | |- Forall _ [_] => constructor; [|constructor]
             | |- extends p (_branch (p ++ q) _ ++ _) => apply extends_branch
             | |- extends p _ => eexists; rewrite <- !app_assoc; reflexivity
             end.
  - cbn [ascii_group_body]. destruct (nonempty trgs).
    + rewrite print_leaves_spec. apply leaf_lines_extend.
    + constructor; [apply extends_branch | constructor].
Qed.

Lemma ascii_relation_children_extend (unicode_alnum : N -> bool) (conn : Conn)
      (args : Args) (p : pystr) (rel_oid : Z) :
  Forall (extends p) (ascii_relation_children unicode_alnum conn args p rel_oid []).
Proof.
  rewrite ascii_relation_children_spec. cbn [app].
  constructor.
  { rewrite <- (app_nil_r p) at 2. apply extends_branch. }
  apply Forall_app. split.
  - unfold _child_prefix. apply leaf_lines_extend.
  - apply lines_last_Forall. intros b g. unfold group_block.
    constructor.
    + rewrite <- (app_nil_r p) at 2. apply extends_branch.
    + unfold _child_prefix. apply ascii_group_body_extends.
Qed.

Lemma count_last_app (prefix : pystr) (a b : list pystr) :
  count_last prefix (a ++ b) = (count_last prefix a + count_last prefix b)%nat.
Proof. unfold count_last. now rewrite filter_app, length_app. Qed.

Lemma count_members_app (prefix : pystr) (a b : list pystr) :
  count_members prefix (a ++ b)
  = (count_members prefix a + count_members prefix b)%nat.
Proof. unfold count_members. now rewrite filter_app, length_app. Qed.

(** Lines that go on from a continuation are no branch line of the
    top level. *)
Lemma below_top_not_counted (b : bool) (lines : list pystr) :
  Forall (extends (_child_prefix [] b)) lines ->
  count_last [] lines = 0%nat /\ count_members [] lines = 0%nat.
Proof.
  intros H. unfold count_last, count_members.
  induction H as [|l lines [x ->] _ [IH1 IH2]]; [split; reflexivity|].
  cbn [filter].
  assert (Hl : starts_with ([] ++ GLYPH_LAST) (_child_prefix [] b ++ x) = false)
    by (destruct b; reflexivity).
  assert (Hm : starts_with ([] ++ GLYPH_MID) (_child_prefix [] b ++ x) = false)
    by (destruct b; reflexivity).
  rewrite Hl, Hm. cbn [orb]. split; assumption.
Qed.

Lemma top_line_counted (b : bool) (t : pystr) (lines : list pystr) :
  Forall (extends (_child_prefix [] b)) lines ->
  count_last [] ((_branch [] b ++ t) :: lines) = (if b then 1 else 0)%nat
  /\ count_members [] ((_branch [] b ++ t) :: lines) = 1%nat.
Proof.
  intros H. destruct (below_top_not_counted b lines H) as [H1 H2].
  unfold count_last, count_members in *. cbn [filter].
  assert (Hl : starts_with ([] ++ GLYPH_LAST) (_branch [] b ++ t) = b)
    by (destruct b; reflexivity).
  assert (Hm : starts_with ([] ++ GLYPH_MID) (_branch [] b ++ t) = negb b)
    by (destruct b; reflexivity).
  rewrite Hl, Hm.
  destruct b; cbn [orb negb List.length]; rewrite ?H1, ?H2; split; reflexivity.
Qed.

Section TopLevel.

Variable unicode_alnum : N -> bool.
Variable conn : Conn.
Variable schema : pystr.
Variable args : Args.

Lemma relation_lines_counted (b : bool) (row : table_row) :
  count_last [] (relation_lines unicode_alnum conn schema args b row)
  = (if b then 1 else 0)%nat
  /\ count_members [] (relation_lines unicode_alnum conn schema args b row) = 1%nat.
Proof.
  unfold relation_lines. apply top_line_counted.
  destruct (get_rel_oid conn schema (fst row)) as [rel_oid|].
  - apply ascii_relation_children_extend.
  - constructor; [|constructor]. eexists. reflexivity.
Qed.

Lemma relations_counted (rows : list table_row) :
  count_last [] (lines_last (relation_lines unicode_alnum conn schema args) rows)
  = (if nonempty rows then 1 else 0)%nat
  /\ count_members [] (lines_last (relation_lines unicode_alnum conn schema args) rows)
     = List.length rows.
Proof.
  induction rows as [|row rows [IH1 IH2]]; [split; reflexivity|].
  cbn [lines_last]. destruct rows as [|row2 rows].
  - destruct (relation_lines_counted true row) as [H1 H2]. now rewrite H1, H2.
  - rewrite count_last_app, count_members_app, IH1, IH2.
    destruct (relation_lines_counted false row) as [H1 H2]. rewrite H1, H2.
    split; reflexivity.
Qed.

Lemma functions_counted :
  count_last [] (functions_lines conn schema args)
  = (if include_funcs args && negb (nonempty (iter_tables conn schema args))
     then 1 else 0)%nat
  /\ count_members [] (functions_lines conn schema args)
     = (if include_funcs args then 1 else 0)%nat.
Proof.
  unfold functions_lines. destruct (include_funcs args); [|split; reflexivity].
  cbn [andb].
  destruct (top_line_counted (negb (nonempty (iter_tables conn schema args)))
              (py "functions")
              (leaf_lines function_text
                 (_child_prefix [] (negb (nonempty (iter_tables conn schema args))))
                 (iter_functions conn schema))) as [H1 H2].
  - rewrite <- (app_nil_r (_child_prefix [] _)) at 2. apply leaf_lines_extend.
  - rewrite H1, H2. split; reflexivity.
Qed.

End TopLevel.

(** X18. Under a schema's name the branch lines of the top level are
    one per relation, plus one for [functions] when functions are
    printed, and exactly one of them carries the closing glyph unless
    there is none at all. *)
Theorem top_level_branches (unicode_alnum : N -> bool) (conn : Conn)
        (schema : pystr) (args : Args) :
  let lines := schema_children_lines unicode_alnum conn schema args in
  (forall out,
      print_schema_tree_ascii unicode_alnum conn schema args out
      = out ++ schema :: lines)
  /\ count_members [] lines
     = ((if include_funcs args then 1 else 0)
        + List.length (iter_tables conn schema args))%nat
  /\ count_last [] lines
     = (if include_funcs args || nonempty (iter_tables conn schema args)
        then 1 else 0)%nat.
Proof.
  cbv zeta. split; [apply print_schema_tree_ascii_spec|].
  unfold schema_children_lines. rewrite count_members_app, count_last_app.
  destruct (functions_counted conn schema args) as [F1 F2].
  destruct (relations_counted unicode_alnum conn schema args
                              (iter_tables conn schema args)) as [R1 R2].
  rewrite F1, F2, R1, R2. split; [reflexivity|].
  destruct (include_funcs args), (nonempty (iter_tables conn schema args));
    reflexivity.
Qed.

(** X19. With [--schema-regex] and a non-empty [--schema], as long as
    [re.search] does not raise on any row, the schema iterator yields
    the rows in which the pattern is found, in cursor order; when it
    raises on the first row nothing is yielded. *)
Theorem iter_schemas_with_pattern (re_search : pystr -> pystr -> option bool)
        (schemas_cur : bool -> list pystr) (a : SchemaArgs) (pattern : pystr) :
  schema_regex a = true ->
  args_schema a = Some pattern ->
  pattern <> [] ->
  (Forall (fun nspname => re_search pattern nspname <> None)
          (schemas_cur (include_all_schemas a)) ->
   iter_schemas re_search schemas_cur a
   = Some (filter (fun nspname =>
                     match re_search pattern nspname with
                     | Some true => true
                     | _ => false
                     end)
                  (schemas_cur (include_all_schemas a))))
  /\ (forall nspname rows,
         schemas_cur (include_all_schemas a) = nspname :: rows ->
         re_search pattern nspname = None ->
         iter_schemas re_search schemas_cur a = None).
Proof.
  intros Hregex Hschema Hne.
  assert (Htruthy : truthy (args_schema a) = true).
  { rewrite Hschema. destruct pattern; [congruence|reflexivity]. }
  unfold iter_schemas. split.
  - intros Hall. induction Hall as [|n rows Hn _ IH]; [reflexivity|].
    cbn [iter_schemas_rows filter]. rewrite Hregex, Htruthy, Hschema, IH.
    destruct (re_search pattern n) as [[|]|]; [reflexivity|reflexivity|congruence].
  - intros n rows Hrows Hraise. rewrite Hrows.
    cbn [iter_schemas_rows]. now rewrite Hregex, Htruthy, Hschema, Hraise.
Qed.

Lemma iter_schemas_with_pattern_witness :
  iter_schemas (fun _ n => Some (pystr_eqb n (py "app")))
               (fun _ => [py "app"; py "audit"])
               (mkSchemaArgs false true (Some (py "^app$")))
  = Some [py "app"].
Proof.
  refine (proj1 (iter_schemas_with_pattern
                   (fun _ n => Some (pystr_eqb n (py "app")))
                   (fun _ => [py "app"; py "audit"])
                   (mkSchemaArgs false true (Some (py "^app$")))
                   (py "^app$") eq_refl eq_refl _) _).
  - discriminate.
  - repeat constructor; discriminate.
Defined.
